(** * Spaced-repetition scheduling: the SM-2 variant of
      [src/utils/spacedRepetition.ts] and the review-schedule store built on it.

    Conventions of the embedding.
    - A JavaScript [number] that holds a count, a quality score, a number of
      days or a timestamp in milliseconds is a [Z]; one that holds a fraction
      (ease factor, multipliers, averages) is an exact rational [Q], compared
      with [==].  Decimal literals denote their decimal value and [Math.round]
      is rounding half up, [floor (x + 1/2)]: the rounding error of binary64
      arithmetic is left out ([Binary64.scenarioB_binary64] replays the one
      scenario with concrete fractions in binary64).
    - A [Date] is its [getTime()] value, milliseconds since the epoch, and so
      is the ISO string the store keeps for it; the range limit of [Date] is
      not modelled.  Where SQL compares two such strings ([<=], [MIN],
      [ORDER BY]) it compares them byte by byte, which is the order of
      [ISO.leb] and is the order of the instants for years 0 to 9999.
    - The tags [ConfidenceLevel], [Room] and [Difficulty] are strings in the
      source; every [switch] over them has a [default] branch, so each type
      has one more constructor standing for any unrecognised string. *)

From Stdlib Require Import ZArith QArith Qround Qminmax Lia Lqa PrimFloat.
From stdpp Require Import gmap strings list pretty sorting.

#[local] Open Scope Z_scope.

(** ** JavaScript numerics *)

Module JS.

(** [Math.round]: the nearest integer, halves towards +infinity. *)
Definition Math_round (x : Q) : Z := Qfloor (x + (1 # 2)).

(** [Math.ceil]. *)
Definition Math_ceil (x : Q) : Z := Qceiling x.

End JS.

(** ** Tags and the review context ([types/battle], [types/review]) *)

Inductive ConfidenceLevel := certeza | duvida | chute | confidence_unknown.
Inductive Room := triagem | vermelha | amarela | verde | room_unknown.
Inductive Difficulty := hard | easy | medium | difficulty_unknown.

Record ReviewContext := {
  isCorrect : bool;
  confidence : ConfidenceLevel;
  room : Room;
  difficulty : Difficulty
}.

(** The four scheduling numbers [computeNextSchedule] reads from a previous
    schedule. *)
Record PreviousSchedule := {
  prev_repetitions : Z;
  prev_intervalDays : Z;
  prev_easeFactor : Q;
  prev_correctStreak : Z
}.

Record ReviewScheduleUpdate := {
  upd_repetitions : Z;
  upd_intervalDays : Z;
  upd_easeFactor : Q;
  upd_nextReviewAt : Z;
  upd_correctStreak : Z;
  upd_lastResult : Z
}.

(** Milliseconds in a day, [24 * 60 * 60 * 1000]. *)
Definition DAY_MS : Z := 24 * 60 * 60 * 1000.

(** ** The scheduling algorithm ([spacedRepetition.ts]) *)

Definition mapQuality (isCorrect : bool) (confidence : ConfidenceLevel) : Z :=
  if isCorrect then
    match confidence with
    | certeza => 5
    | duvida => 4
    | chute => 3
    | confidence_unknown => 4
    end
  else
    match confidence with certeza => 1 | _ => 2 end.

Definition getRoomMultiplier (room : Room) : Q :=
  match room with
  | triagem => 0.6
  | vermelha => 0.7
  | amarela => 0.85
  | verde => 1.15
  | room_unknown => 1.0
  end.

Definition getDifficultyMultiplier (difficulty : Difficulty) : Q :=
  match difficulty with
  | hard => 0.85
  | easy => 1.1
  | medium => 1.0
  | difficulty_unknown => 1.0
  end.

Definition updateEaseFactor (currentEF : Q) (quality : Z) : Q :=
  let q := inject_Z quality in
  let newEF := (currentEF + (0.1 - (5 - q) * (0.08 + (5 - q) * 0.02)))%Q in
  Qmin 2.6 (Qmax 1.3 newEF).

Definition calculateBaseInterval
    (repetitions previousInterval : Z) (easeFactor : Q) (quality : Z) : Z :=
  if quality <? 3 then 1
  else if repetitions =? 0 then 1
  else if repetitions =? 1 then 6
  else JS.Math_round (inject_Z previousInterval * easeFactor).

Definition applyContextualAdjustments
    (baseInterval : Z) (context : ReviewContext) (correctStreak : Z) : Z :=
  let quality := mapQuality (isCorrect context) (confidence context) in
  let roomMultiplier := getRoomMultiplier (room context) in
  let difficultyMultiplier := getDifficultyMultiplier (difficulty context) in
  let adjustedInterval :=
    Z.max 1 (JS.Math_round
               (inject_Z baseInterval * roomMultiplier * difficultyMultiplier)) in
  if isCorrect context && (4 <=? quality) && (3 <=? correctStreak)
  then JS.Math_round (inject_Z adjustedInterval * 1.1)
  else adjustedInterval.

(** [now] is the value of the one [Date.now()] the function evaluates, when
    it builds [nextReviewAt]. *)
Definition computeNextSchedule
    (now : Z) (previousSchedule : option PreviousSchedule)
    (context : ReviewContext) : ReviewScheduleUpdate :=
  let quality := mapQuality (isCorrect context) (confidence context) in
  let prevReps := from_option prev_repetitions 0 previousSchedule in
  let prevInterval := from_option prev_intervalDays 1 previousSchedule in
  let prevEF := from_option prev_easeFactor 2.5%Q previousSchedule in
  let prevStreak := from_option prev_correctStreak 0 previousSchedule in
  let newEF := updateEaseFactor prevEF quality in
  let newRepetitions := if quality <? 3 then 0 else prevReps + 1 in
  let baseInterval :=
    calculateBaseInterval newRepetitions prevInterval newEF quality in
  let newStreak := if isCorrect context then prevStreak + 1 else 0 in
  let finalInterval :=
    applyContextualAdjustments baseInterval context newStreak in
  let nextReviewAt := now + finalInterval * DAY_MS in
  {| upd_repetitions := newRepetitions;
     upd_intervalDays := finalInterval;
     upd_easeFactor := newEF;
     upd_nextReviewAt := nextReviewAt;
     upd_correctStreak := newStreak;
     upd_lastResult := quality |}.

(** [now] is the value of [new Date().getTime()] in each of the three
    functions below. *)
Definition isOverdue (now nextReviewAt threshold : Z) : bool :=
  let timeDiff := now - nextReviewAt in
  threshold * DAY_MS <? timeDiff.

Definition getDaysUntilReview (now nextReviewAt : Z) : Z :=
  let timeDiff := nextReviewAt - now in
  JS.Math_ceil (inject_Z timeDiff / inject_Z DAY_MS).

Inductive UrgencyLevel := overdue | due_today | due_soon | scheduled.

Definition getUrgencyLevel (now nextReviewAt : Z) : UrgencyLevel :=
  let daysUntil := getDaysUntilReview now nextReviewAt in
  if daysUntil <? 0 then overdue
  else if daysUntil =? 0 then due_today
  else if daysUntil <=? 2 then due_soon
  else scheduled.

Definition scenarioB_prev : PreviousSchedule :=
  {| prev_repetitions := 2; prev_intervalDays := 10;
     prev_easeFactor := 2.0; prev_correctStreak := 4 |}.

Definition scenarioB_ctx : ReviewContext :=
  {| isCorrect := true; confidence := certeza; room := verde; difficulty := easy |}.

(** ** The review-schedule store ([upsertQuestionSchedule], [getReviewStats])

    The store functions run SQL against the [review_schedules] and
    [study_topics] tables, read the wall clock and draw a random id suffix.
    A row of [review_schedules] is a record whose fields stand in the column
    order of the [INSERT] statement, the order in which
    [getScheduleByQuestionId] reads the array [db.exec] returns for a row.
    [stmt.getAsObject()] returns a row as an object keyed by column name,
    and binding [undefined] to a statement parameter throws.  The optional
    fields of the [ReviewSchedule] interface are nullable columns.  The
    tables are created by [schema.sql], which is not among the sources: they
    are lists of rows here, with no constraint beyond the types of the
    columns. *)

Inductive ItemType := item_question | item_topic.

#[global] Instance ItemType_eq_dec : EqDecision ItemType.
Proof. solve_decision. Defined.

#[global] Instance Room_eq_dec : EqDecision Room.
Proof. solve_decision. Defined.

Module rs.
Record row := {
  id : string;                               (* column 0 *)
  item_type : ItemType;                      (* 1 *)
  item_id : string;                          (* 2 *)
  topic_id : option string;                  (* 3 *)
  subject_id : option string;                (* 4 *)
  repetitions : Z;                           (* 5 *)
  interval_days : Z;                         (* 6 *)
  ease_factor : Q;                           (* 7 *)
  correct_streak : Z;                        (* 8 *)
  last_review : option Z;                    (* 9 *)
  next_review_at : Z;                        (* 10 *)
  last_result : option Z;                    (* 11 *)
  last_confidence : option ConfidenceLevel;  (* 12 *)
  last_room : option Room;                   (* 13 *)
  created_at : Z;                            (* 14 *)
  updated_at : Z                             (* 15 *)
}.
End rs.

(** A row of [study_topics], as far as the store reads it. *)
Record TopicRow := { t_id : string; t_subject_id : option string }.

Record DB := {
  review_schedules : list rs.row;
  study_topics : list TopicRow
}.

(** The part of a [Question] the store reads.  ([question.subjectName] is
    read as well, but both branches of that conditional are [undefined].) *)
Record Question := { question_id : string; question_topicId : string }.

Module ReviewSchedule.
Record t := {
  id : string;
  itemType : ItemType;
  itemId : string;
  topicId : option string;
  subjectId : option string;
  repetitions : Z;
  intervalDays : Z;
  easeFactor : Q;
  correctStreak : Z;
  lastReview : option Z;
  nextReviewAt : Z;
  lastResult : option Z;
  lastConfidence : option ConfidenceLevel;
  lastRoom : option Room;
  createdAt : Z;
  updatedAt : Z
}.
End ReviewSchedule.

Record DueByRoom := {
  due_triagem : Z; due_vermelha : Z; due_amarela : Z; due_verde : Z
}.

Record StreakData := { averageStreak : Q; longestStreak : Z }.

Record ReviewStats := {
  totalDue : Z;
  dueByRoom : DueByRoom;
  dueBySubject : gmap string Z;
  nextReviewDate : option Z;
  streakData : StreakData
}.

(** *** JavaScript [undefined], and calls that throw *)

(** The value [undefined]. *)
Inductive JsUndefined := undefined.

(** [v ?? d] when [v] is [undefined]. *)
Definition nullish {A : Type} (v : JsUndefined) (d : A) : A := d.

(** What is thrown.  sql.js throws the string ["Wrong API use : tried to
    bind a value of an unknown type (undefined)."] when a statement
    parameter is [undefined]. *)
Inductive Thrown := WrongApiUse.

(** How a call ends: it returns a value or it throws. *)
Inductive Completion (A : Type) :=
  | Returns (a : A)
  | Throws (e : Thrown).

Arguments Returns {A} a.
Arguments Throws {A} e.

(** *** The world the store functions run in

    [ticks] counts the clock reads made so far and [draws] the calls of
    [Math.random]; the values they return are given by [clock] and
    [random]. *)

Record World := { db : DB; ticks : nat; draws : nat }.

Definition M (A : Type) : Type := World -> A * World.

Definition ret {A} (a : A) : M A := fun w => (a, w).

Definition bind {A B} (m : M A) (k : A -> M B) : M B :=
  fun w => let (a, w') := m w in k a w'.

Notation "'let*' x ':=' m 'in' k" := (bind m (fun x => k))
  (at level 10, x name, m at level 100, k at level 200, only parsing).

Definition get_db : M DB := fun w => (db w, w).

Definition put_db (d : DB) : M unit :=
  fun w => (tt, {| db := d; ticks := ticks w; draws := draws w |}).

Definition run {A} (m : M A) (w : World) : World := snd (m w).
Definition result {A} (m : M A) (w : World) : A := fst (m w).

(** *** Timestamps as the store compares them

    A timestamp column holds [toISOString()] of a [Date], and SQLite compares
    two such strings byte by byte.  Years 0 to 9999 are written with four
    digits, ["2023-11-14T22:13:20.000Z"]; a later year with a plus sign and
    six digits, ["+010000-01-01T00:00:00.000Z"]; a year before 0 with a
    minus sign and the six digits of its absolute value.  The plus sign
    sorts before the minus sign and both before every digit, and all fields
    after the year have a fixed width. *)

Module ISO.

(** The first instants of the years 0 and 10000. *)
Definition YEAR_0 : Z := -62167219200000.
Definition YEAR_10000 : Z := 253402300800000.

(** The year of an instant in the proleptic Gregorian calendar. *)
Definition year (t : Z) : Z :=
  let z := t / DAY_MS + 719468 in
  let era := z / 146097 in
  let doe := z - era * 146097 in
  let yoe := (doe - doe / 1460 + doe / 36524 - doe / 146096) / 365 in
  let doy := doe - (365 * yoe + yoe / 4 - yoe / 100) in
  let mp := (5 * doy + 2) / 153 in
  yoe + era * 400 + (if mp <? 10 then 0 else 1).

(** What decides the order of two ISO strings: the first character (plus
    sign 0, minus sign 1, digit 2), then for a year before 0 its absolute
    value, then the instant. *)
Definition key (t : Z) : Z * Z * Z :=
  if t <? YEAR_0 then (1, - year t, t)
  else if t <? YEAR_10000 then (2, 0, t)
  else (0, 0, t).

(** [toISOString(a) <= toISOString(b)] as strings. *)
Definition leb (a b : Z) : bool :=
  let '(a1, a2, a3) := key a in
  let '(b1, b2, b3) := key b in
  (a1 <? b1) || ((a1 =? b1) && ((a2 <? b2) || ((a2 =? b2) && (a3 <=? b3)))).

(** The lesser of two ISO strings. *)
Definition min (a b : Z) : Z := if leb a b then a else b.

(** The instants of the years 0 to 9999, whose strings have a four-digit
    year. *)
Definition four_digit_year (t : Z) : Prop := YEAR_0 <= t < YEAR_10000.

End ISO.

(** *** SQL statements, as functions on the tables *)

Module SQL.

(** [SELECT * FROM review_schedules WHERE item_type = 'question' AND
    item_id = ?], first row if any. *)
Definition select_schedule (itemId : string) (rows : list rs.row)
    : option rs.row :=
  find (fun r => bool_decide (rs.item_type r = item_question)
                 && bool_decide (rs.item_id r = itemId)) rows.

(** [SELECT t.subject_id FROM study_topics t WHERE t.id = ?], then
    [topicResult[0]?.values[0]?.[0] as string || null]: a missing row, a
    NULL and the empty string all give [null]. *)
Definition select_subject_id (topicId : string) (topics : list TopicRow)
    : option string :=
  match find (fun t => bool_decide (t_id t = topicId)) topics with
  | Some t =>
      match t_subject_id t with
      | Some s => if bool_decide (s = "") then None else Some s
      | None => None
      end
  | None => None
  end.

(** [INSERT INTO review_schedules (id, ..., updated_at) VALUES (...)]. *)
Definition new_row (scheduleId : string) (question : Question)
    (subjectId : option string) (schedule : ReviewSchedule.t) : rs.row :=
  {| rs.id := scheduleId;
     rs.item_type := item_question;
     rs.item_id := question_id question;
     rs.topic_id := Some (question_topicId question);
     rs.subject_id := subjectId;
     rs.repetitions := ReviewSchedule.repetitions schedule;
     rs.interval_days := ReviewSchedule.intervalDays schedule;
     rs.ease_factor := ReviewSchedule.easeFactor schedule;
     rs.correct_streak := ReviewSchedule.correctStreak schedule;
     rs.last_review := ReviewSchedule.lastReview schedule;
     rs.next_review_at := ReviewSchedule.nextReviewAt schedule;
     rs.last_result := ReviewSchedule.lastResult schedule;
     rs.last_confidence := ReviewSchedule.lastConfidence schedule;
     rs.last_room := ReviewSchedule.lastRoom schedule;
     rs.created_at := ReviewSchedule.createdAt schedule;
     rs.updated_at := ReviewSchedule.updatedAt schedule |}.

Definition insert_schedule (r : rs.row) (rows : list rs.row)
    : list rs.row := rows ++ [r].

(** Binding [undefined] as a statement parameter: what [db.exec] throws. *)
Definition bind_undefined (v : JsUndefined) : Thrown := WrongApiUse.

(** The statistics query of [getReviewStats]:
    [SELECT COUNT( * ), rs.last_room, rs.subject_id, AVG(rs.correct_streak),
     MAX(rs.correct_streak), MIN(rs.next_review_at) FROM review_schedules rs
     WHERE rs.item_type = 'question' AND rs.next_review_at <= ?
     [AND rs.subject_id IN (...)] GROUP BY rs.last_room, rs.subject_id]. *)
Record stats_row := {
  total_due : Z;
  last_room : option Room;
  subject_id : option string;
  avg_streak : Q;
  max_streak : Z;
  next_review : Z
}.

(** The [WHERE] clause.  [rs.next_review_at <= ?] compares the stored ISO
    string with that of [now]; the [IN] test is added only for a non-empty
    [subjectIds], and a NULL [subject_id] never passes it. *)
Definition is_due (now : Z) (subjectIds : option (list string))
    (r : rs.row) : bool :=
  bool_decide (rs.item_type r = item_question)
  && ISO.leb (rs.next_review_at r) now
  && match subjectIds with
     | Some [] | None => true
     | Some ids =>
         match rs.subject_id r with
         | Some s => bool_decide (s ∈ ids)
         | None => false
         end
     end.

Definition due_schedules (now : Z) (subjectIds : option (list string))
    (rows : list rs.row) : list rs.row :=
  List.filter (is_due now subjectIds) rows.

(** [GROUP BY]: the rows with equal keys, one group per key, groups in the
    order their keys first occur. *)
Fixpoint add_to_group {K} `{EqDecision K} (k : K) (r : rs.row)
    (groups : list (K * list rs.row)) : list (K * list rs.row) :=
  match groups with
  | [] => [(k, [r])]
  | (k', g) :: groups' =>
      if bool_decide (k = k') then (k', g ++ [r]) :: groups'
      else (k', g) :: add_to_group k r groups'
  end.

Definition group_by {K} `{EqDecision K} (key : rs.row -> K)
    (rows : list rs.row) : list (K * list rs.row) :=
  foldl (fun groups r => add_to_group (key r) r groups) [] rows.

Definition COUNT (g : list rs.row) : Z := Z.of_nat (length g).

Definition SUM_correct_streak (g : list rs.row) : Z :=
  foldr (fun r acc => rs.correct_streak r + acc) 0 g.

Definition AVG_correct_streak (g : list rs.row) : Q :=
  (inject_Z (SUM_correct_streak g) / inject_Z (COUNT g))%Q.

Definition MAX_correct_streak (g : list rs.row) : Z :=
  match g with
  | [] => 0
  | r :: g' => foldl (fun m x => Z.max m (rs.correct_streak x))
                 (rs.correct_streak r) g'
  end.

(** [MIN] of a column of ISO strings: the least string. *)
Definition MIN_next_review_at (g : list rs.row) : Z :=
  match g with
  | [] => 0
  | r :: g' => foldl (fun m x => ISO.min m (rs.next_review_at x))
                 (rs.next_review_at r) g'
  end.

Definition stats_query (now : Z) (subjectIds : option (list string))
    (rows : list rs.row) : list stats_row :=
  map (fun '(k, g) =>
         {| total_due := COUNT g;
            last_room := fst k;
            subject_id := snd k;
            avg_streak := AVG_correct_streak g;
            max_streak := MAX_correct_streak g;
            next_review := MIN_next_review_at g |})
      (group_by (fun r => (rs.last_room r, rs.subject_id r))
         (due_schedules now subjectIds rows)).

End SQL.

(** *** The store functions *)

Section Store.

(** [clock n] is what the [n]-th read of the wall clock returns, in
    milliseconds; [random n] is the nine characters
    [Math.random().toString(36).substr(2, 9)] gives at the [n]-th draw. *)
Variable clock : nat -> Z.
Variable random : nat -> string.

(** [Date.now()], and [new Date()] read as its time value. *)
Definition Date_now : M Z :=
  fun w => (clock (ticks w),
            {| db := db w; ticks := S (ticks w); draws := draws w |}).

Definition Math_random_suffix : M string :=
  fun w => (random (draws w),
            {| db := db w; ticks := ticks w; draws := S (draws w) |}).

(** [`schedule_${Date.now()}_${Math.random().toString(36).substr(2, 9)}`] *)
Definition fresh_schedule_id : M string :=
  let* t := Date_now in
  let* r := Math_random_suffix in
  ret ("schedule_" +:+ pretty t +:+ "_" +:+ r).

(** [existing[k]] for a number [k].  [existing] is the object
    [stmt.getAsObject()] returns for the selected row: its keys are the
    column names, the fields of [rs.row], and none of them is a number, so
    the read gives [undefined] whatever the row and the index. *)
Definition by_index (existing : rs.row) (k : nat) : JsUndefined := undefined.

(** The object [{repetitions: existing[5], intervalDays: existing[6],
    easeFactor: existing[7], correctStreak: existing[8]}].  Its four fields
    are [undefined], and [computeNextSchedule] reads each through
    [?? default]; the fields of [PreviousSchedule] are numbers, so the
    [??] is applied here, with the defaults of [computeNextSchedule]. *)
Definition previous_of_row (existing : rs.row) : PreviousSchedule :=
  {| prev_repetitions := nullish (by_index existing 5) 0;
     prev_intervalDays := nullish (by_index existing 6) 1;
     prev_easeFactor := nullish (by_index existing 7) 2.5%Q;
     prev_correctStreak := nullish (by_index existing 8) 0 |}.

(** [ensureReviewTable] only reads [sqlite_master] and may log a warning;
    the save callback fetched by [getScheduleSave] is never called.

    When the question has a schedule, [scheduleId] is [existing[0]], which
    is [undefined], and the [UPDATE] statement takes it as its last
    parameter: [db.exec] throws while it binds the parameters, before the
    statement runs, so nothing is written and nothing is returned.  The
    object [schedule] built before that is not observed; here it is built
    in the branch that inserts. *)
Definition upsertQuestionSchedule
    (question : Question) (context : ReviewContext)
    : M (Completion ReviewSchedule.t) :=
  let* d := get_db in
  let existing :=
    SQL.select_schedule (question_id question) (review_schedules d) in
  let previousSchedule := option_map previous_of_row existing in
  let* t := Date_now in
  let nextSchedule := computeNextSchedule t previousSchedule context in
  let* now := Date_now in
  let subjectId :=
    SQL.select_subject_id (question_topicId question) (study_topics d) in
  match existing with
  | Some e =>
      let scheduleId := by_index e 0 in
      ret (Throws (SQL.bind_undefined scheduleId))
  | None =>
      let* scheduleId := fresh_schedule_id in
      let schedule :=
        {| ReviewSchedule.id := scheduleId;
           ReviewSchedule.itemType := item_question;
           ReviewSchedule.itemId := question_id question;
           ReviewSchedule.topicId := Some (question_topicId question);
           ReviewSchedule.subjectId := None;
           ReviewSchedule.repetitions := upd_repetitions nextSchedule;
           ReviewSchedule.intervalDays := upd_intervalDays nextSchedule;
           ReviewSchedule.easeFactor := upd_easeFactor nextSchedule;
           ReviewSchedule.correctStreak := upd_correctStreak nextSchedule;
           ReviewSchedule.lastReview := Some now;
           ReviewSchedule.nextReviewAt := upd_nextReviewAt nextSchedule;
           ReviewSchedule.lastResult := Some (upd_lastResult nextSchedule);
           ReviewSchedule.lastConfidence := Some (confidence context);
           ReviewSchedule.lastRoom := Some (room context);
           ReviewSchedule.createdAt := now;
           ReviewSchedule.updatedAt := now |} in
      let* _ :=
        put_db
          {| review_schedules :=
               SQL.insert_schedule
                 (SQL.new_row scheduleId question subjectId schedule)
                 (review_schedules d);
             study_topics := study_topics d |} in
      ret (Returns schedule)
  end.

Definition schedule_of_row (row : rs.row) : ReviewSchedule.t :=
  {| ReviewSchedule.id := rs.id row;
     ReviewSchedule.itemType := rs.item_type row;
     ReviewSchedule.itemId := rs.item_id row;
     ReviewSchedule.topicId := rs.topic_id row;
     ReviewSchedule.subjectId := rs.subject_id row;
     ReviewSchedule.repetitions := rs.repetitions row;
     ReviewSchedule.intervalDays := rs.interval_days row;
     ReviewSchedule.easeFactor := rs.ease_factor row;
     ReviewSchedule.correctStreak := rs.correct_streak row;
     ReviewSchedule.lastReview := rs.last_review row;
     ReviewSchedule.nextReviewAt := rs.next_review_at row;
     ReviewSchedule.lastResult := rs.last_result row;
     ReviewSchedule.lastConfidence := rs.last_confidence row;
     ReviewSchedule.lastRoom := rs.last_room row;
     ReviewSchedule.createdAt := rs.created_at row;
     ReviewSchedule.updatedAt := rs.updated_at row |}.

Definition getScheduleByQuestionId (questionId : string)
    : M (option ReviewSchedule.t) :=
  let* d := get_db in
  ret (option_map schedule_of_row
         (SQL.select_schedule questionId (review_schedules d))).

(** The loop of [getReviewStats] over the rows of the query, with its
    two local counters. *)
Record StatsLoop := {
  stats : ReviewStats;
  totalStreak : Q;
  count : Z
}.

(** [stats.dueByRoom[room] += due] under the guard
    [room && stats.dueByRoom[room] !== undefined]: only the four keys the
    object is created with are defined. *)
Definition add_dueByRoom (room : option Room) (due : Z) (b : DueByRoom)
    : DueByRoom :=
  match room with
  | Some triagem =>
      {| due_triagem := due_triagem b + due; due_vermelha := due_vermelha b;
         due_amarela := due_amarela b; due_verde := due_verde b |}
  | Some vermelha =>
      {| due_triagem := due_triagem b; due_vermelha := due_vermelha b + due;
         due_amarela := due_amarela b; due_verde := due_verde b |}
  | Some amarela =>
      {| due_triagem := due_triagem b; due_vermelha := due_vermelha b;
         due_amarela := due_amarela b + due; due_verde := due_verde b |}
  | Some verde =>
      {| due_triagem := due_triagem b; due_vermelha := due_vermelha b;
         due_amarela := due_amarela b; due_verde := due_verde b + due |}
  | Some room_unknown | None => b
  end.

(** [stats.dueBySubject[subjectId] = (stats.dueBySubject[subjectId] || 0)
    + due] under the guard [if (subjectId)]. *)
Definition add_dueBySubject (subjectId : option string) (due : Z)
    (m : gmap string Z) : gmap string Z :=
  match subjectId with
  | Some s =>
      if bool_decide (s = "") then m
      else <[s := default 0 (m !! s) + due]> m
  | None => m
  end.

Definition stats_step (l : StatsLoop) (row : SQL.stats_row) : StatsLoop :=
  let due := SQL.total_due row in
  let room := SQL.last_room row in
  let subjectId := SQL.subject_id row in
  let avgStreak := SQL.avg_streak row in
  let maxStreak := SQL.max_streak row in
  let nextReview := SQL.next_review row in
  let s := stats l in
  {| stats :=
       {| totalDue := totalDue s + due;
          dueByRoom := add_dueByRoom room due (dueByRoom s);
          dueBySubject := add_dueBySubject subjectId due (dueBySubject s);
          nextReviewDate :=
            match nextReviewDate s with
            | None => Some nextReview
            | Some d => if nextReview <? d then Some nextReview else Some d
            end;
          streakData :=
            {| averageStreak := averageStreak (streakData s);
               longestStreak :=
                 if longestStreak (streakData s) <? maxStreak
                 then maxStreak else longestStreak (streakData s) |} |};
     totalStreak := (totalStreak l + avgStreak)%Q;
     count := count l + 1 |}.

Definition initial_stats : ReviewStats :=
  {| totalDue := 0;
     dueByRoom := {| due_triagem := 0; due_vermelha := 0;
                     due_amarela := 0; due_verde := 0 |};
     dueBySubject := ∅;
     nextReviewDate := None;
     streakData := {| averageStreak := 0; longestStreak := 0 |} |}.

Definition stats_of_rows (rows : list SQL.stats_row) : ReviewStats :=
  let l := foldl stats_step
             {| stats := initial_stats; totalStreak := 0; count := 0 |}
             rows in
  let s := stats l in
  if 0 <? count l then
    {| totalDue := totalDue s;
       dueByRoom := dueByRoom s;
       dueBySubject := dueBySubject s;
       nextReviewDate := nextReviewDate s;
       streakData :=
         {| averageStreak := (totalStreak l / inject_Z (count l))%Q;
            longestStreak := longestStreak (streakData s) |} |}
  else s.

Definition getReviewStats (subjectIds : option (list string))
    : M ReviewStats :=
  let* d := get_db in
  let* now := Date_now in
  ret (stats_of_rows (SQL.stats_query now subjectIds (review_schedules d))).

End Store.

(** *** The due-question query ([getDueQuestionIds])

    [SELECT DISTINCT rs.item_id FROM review_schedules rs
     LEFT JOIN study_topics t ON rs.topic_id = t.id
     WHERE rs.item_type = 'question' AND rs.next_review_at <= ?
     [AND rs.subject_id IN (...)]
     ORDER BY rs.next_review_at ASC [LIMIT n]].
    The clauses are applied in the order SQL gives them: join, [WHERE],
    [DISTINCT] (the first row of each [item_id] is kept, in table order),
    [ORDER BY], [LIMIT].  When a question has one schedule, which row
    [DISTINCT] keeps does not matter.  Rows with the same [next_review_at]
    stay in table order. *)

Module DueSQL.

(** [rs LEFT JOIN study_topics t ON rs.topic_id = t.id]: a schedule row once
    for each topic row with its [topic_id], and once with no topic when
    there is none (or when [topic_id] is NULL). *)
Definition left_join_topics (rows : list rs.row) (topics : list TopicRow)
    : list (rs.row * option TopicRow) :=
  flat_map
    (fun r =>
       match List.filter (fun t => bool_decide (rs.topic_id r = Some (t_id t)))
               topics with
       | [] => [(r, None)]
       | t :: ts => map (fun t' => (r, Some t')) (t :: ts)
       end)
    rows.

(** [DISTINCT] on a key: the rows whose key was not seen before. *)
Fixpoint distinct_by {A} (key : A -> string) (seen : list string)
    (l : list A) : list A :=
  match l with
  | [] => []
  | x :: l' =>
      if bool_decide (key x ∈ seen) then distinct_by key seen l'
      else x :: distinct_by key (key x :: seen) l'
  end.

(** The order of [ORDER BY rs.next_review_at ASC], on the ISO strings. *)
Definition earlier (a b : rs.row * option TopicRow) : Prop :=
  ISO.leb (rs.next_review_at (fst a)) (rs.next_review_at (fst b)) = true.

(** [ORDER BY rs.next_review_at ASC]: each row goes before the first row
    that is not earlier than it, so rows that compare equal keep their
    order. *)
Fixpoint insert_ordered (x : rs.row * option TopicRow)
    (l : list (rs.row * option TopicRow)) : list (rs.row * option TopicRow) :=
  match l with
  | [] => [x]
  | y :: l' =>
      if ISO.leb (rs.next_review_at (fst x)) (rs.next_review_at (fst y))
      then x :: y :: l'
      else y :: insert_ordered x l'
  end.

Definition ORDER_BY_next_review_at (l : list (rs.row * option TopicRow))
    : list (rs.row * option TopicRow) :=
  foldr insert_ordered [] l.

(** The [LIMIT] clause.  The source adds it under [options.limit ? ... :
    ''], so not for a limit of 0; a negative [LIMIT] is no limit in
    SQLite. *)
Definition LIMIT {A} (limit : option Z) (l : list A) : list A :=
  match limit with
  | Some n =>
      if n =? 0 then l
      else if n <? 0 then l
      else take (Z.to_nat n) l
  | None => l
  end.

Definition due_rows (now : Z) (subjectIds : option (list string))
    (limit : option Z) (d : DB) : list (rs.row * option TopicRow) :=
  LIMIT limit
    (ORDER_BY_next_review_at
       (distinct_by (fun jr => rs.item_id (fst jr)) []
          (List.filter (fun jr => SQL.is_due now subjectIds (fst jr))
             (left_join_topics (review_schedules d) (study_topics d))))).

End DueSQL.

(** The options of [getDueQuestionIds]; [includeOverdue] is never read. *)
Record DueOptions := {
  opt_subjectIds : option (list string);
  opt_limit : option Z;
  opt_includeOverdue : option bool
}.

Section DueQueries.

Variable clock : nat -> Z.

Definition getDueQuestionIds (options : DueOptions) : M (list string) :=
  let* d := get_db in
  let* now := Date_now clock in
  ret (map (fun jr => rs.item_id (fst jr))
         (DueSQL.due_rows now (opt_subjectIds options) (opt_limit options) d)).

End DueQueries.

(** No option given: [getDueQuestionIds()]. *)
Definition no_options : DueOptions :=
  {| opt_subjectIds := None; opt_limit := None; opt_includeOverdue := None |}.

(** The columns that identify a row and date its creation: those the
    [UPDATE] statement of [upsertQuestionSchedule] does not name. *)
Definition identity_columns (r : rs.row)
    : string * ItemType * string * option string * Z :=
  (rs.id r, rs.item_type r, rs.item_id r, rs.topic_id r, rs.created_at r).

(** The columns in which an attempt is counted. *)
Definition counted_columns (r : rs.row) : Z * Z * Z :=
  (rs.repetitions r, rs.correct_streak r, rs.interval_days r).

(** ** Sample inputs *)

(** Scenario A of the specification: a correct answer given with certainty,
    tier "developing", medium difficulty. *)
Definition scenarioA_ctx : ReviewContext :=
  {| isCorrect := true; confidence := certeza; room := amarela; difficulty := medium |}.

(** Scenario C: a wrong answer given with certainty, tier "critical", hard. *)
Definition scenarioC_ctx : ReviewContext :=
  {| isCorrect := false; confidence := certeza; room := vermelha; difficulty := hard |}.

Definition sample_question : Question :=
  {| question_id := "q1"; question_topicId := "t1" |}.

Definition empty_world : World :=
  {| db := {| review_schedules := []; study_topics := [] |};
     ticks := 0; draws := 0 |}.

(** A clock that stands still, and one that advances by a millisecond at
    each read. *)
Definition frozen_clock (n : nat) : Z := 1700000000000.
Definition ticking_clock (n : nat) : Z := 1700000000000 + Z.of_nat n.

Definition sample_random (n : nat) : string := "k3j9x0a1z".

(** A schedule stored for [sample_question] by an earlier attempt, and a
    world that holds it. *)
Definition sample_row : rs.row :=
  {| rs.id := "schedule_1699000000000_abcdefghi";
     rs.item_type := item_question;
     rs.item_id := "q1";
     rs.topic_id := Some "t1";
     rs.subject_id := None;
     rs.repetitions := 1;
     rs.interval_days := 5;
     rs.ease_factor := 2.6;
     rs.correct_streak := 1;
     rs.last_review := Some 1699000000000;
     rs.next_review_at := 1699432000000;
     rs.last_result := Some 5;
     rs.last_confidence := Some certeza;
     rs.last_room := Some amarela;
     rs.created_at := 1699000000000;
     rs.updated_at := 1699000000000 |}.

Definition stored_world : World :=
  {| db := {| review_schedules := [sample_row]; study_topics := [] |};
     ticks := 0; draws := 0 |}.

(** The sum of the four per-tier counts of [dueByRoom]. *)
Definition dueByRoom_sum (b : DueByRoom) : Z :=
  due_triagem b + due_vermelha b + due_amarela b + due_verde b.

(** The tier tags that [dueByRoom] has a count for. *)
Definition known_room (room : option Room) : bool :=
  match room with
  | Some (triagem | vermelha | amarela | verde) => true
  | Some room_unknown | None => false
  end.

(** The number of rows in the groups whose key satisfies [P]. *)
Fixpoint rows_in_groups {K} (P : K -> bool) (groups : list (K * list rs.row))
    : Z :=
  match groups with
  | [] => 0
  | (k, g) :: groups' =>
      (if P k then SQL.COUNT g else 0) + rows_in_groups P groups'
  end.

(** A due schedule of a question, with the given tier tag and streak. *)
Definition due_row (itemId : string) (lastRoom : option Room) (streak : Z)
    : rs.row :=
  {| rs.id := "schedule_" +:+ itemId;
     rs.item_type := item_question;
     rs.item_id := itemId;
     rs.topic_id := Some "t1";
     rs.subject_id := None;
     rs.repetitions := 1;
     rs.interval_days := 1;
     rs.ease_factor := 2.5;
     rs.correct_streak := streak;
     rs.last_review := Some 1699900000000;
     rs.next_review_at := 1699986400000;
     rs.last_result := Some 4;
     rs.last_confidence := Some duvida;
     rs.last_room := lastRoom;
     rs.created_at := 1699900000000;
     rs.updated_at := 1699900000000 |}.

(** Three due schedules: two of tier [triagem] with no streak and one of
    tier [verde] with a streak of 3. *)
Definition streaks_world : World :=
  {| db := {| review_schedules :=
                [ due_row "q1" (Some triagem) 0;
                  due_row "q2" (Some triagem) 0;
                  due_row "q3" (Some verde) 3 ];
              study_topics := [] |};
     ticks := 0; draws := 0 |}.

(** Two due schedules, one of them with a tier tag outside the four known
    tiers. *)
Definition unknown_room_world : World :=
  {| db := {| review_schedules :=
                [ due_row "q1" (Some triagem) 0;
                  due_row "q2" (Some room_unknown) 0 ];
              study_topics := [] |};
     ticks := 0; draws := 0 |}.

(** ** Notions used in the further properties *)

(** The schedule rows of questions. *)
Definition question_rows (rows : list rs.row) : list rs.row :=
  List.filter (fun r => bool_decide (rs.item_type r = item_question)) rows.

(** At most one schedule per question: no two question rows share an
    [item_id]. *)
Definition one_schedule_per_question (rows : list rs.row) : Prop :=
  NoDup (map rs.item_id (question_rows rows)).

(** Groups of a [GROUP BY]: every group is non-empty and holds rows of its
    own key. *)
Definition well_keyed {K} (key : rs.row -> K)
    (groups : list (K * list rs.row)) : Prop :=
  forall k g, In (k, g) groups ->
    g <> [] /\ forall r, In r g -> key r = k.

(** The ranges of the scheduling columns: counts not negative, an interval
    of at least a day and an ease factor in [1.3, 2.6]. *)
Definition in_range (r : rs.row) : Prop :=
  0 <= rs.repetitions r /\ 0 <= rs.correct_streak r /\
  1 <= rs.interval_days r /\ (1.3 <= rs.ease_factor r <= 2.6)%Q.

(** The world after further attempts on a question, one for each context
    of the list, in its order. *)
Definition after_attempts (clock : nat -> Z) (random : nat -> string)
    (question : Question) (contexts : list ReviewContext) (w : World)
    : World :=
  foldl (fun w' context =>
           run (upsertQuestionSchedule clock random question context) w')
    w contexts.


(** A question with no schedule in the sample stores. *)
Definition new_question : Question :=
  {| question_id := "q3"; question_topicId := "t1" |}.

(** A store with a second question, due and never reviewed again. *)
Definition two_questions_world : World :=
  {| db := {| review_schedules := [sample_row; due_row "q2" (Some verde) 3];
              study_topics := [{| t_id := "t1"; t_subject_id := Some "s1" |}] |};
     ticks := 0; draws := 0 |}.

(** A due schedule of a question of the given subject. *)
Definition due_row_of_subject (itemId : string) (subject : option string)
    : rs.row :=
  {| rs.id := "schedule_" +:+ itemId;
     rs.item_type := item_question;
     rs.item_id := itemId;
     rs.topic_id := Some "t1";
     rs.subject_id := subject;
     rs.repetitions := 1;
     rs.interval_days := 1;
     rs.ease_factor := 2.5;
     rs.correct_streak := 0;
     rs.last_review := Some 1699900000000;
     rs.next_review_at := 1699986400000;
     rs.last_result := Some 4;
     rs.last_confidence := Some duvida;
     rs.last_room := Some triagem;
     rs.created_at := 1699900000000;
     rs.updated_at := 1699900000000 |}.

(** Three due schedules: one of subject [s1], one of subject [s2] and one
    of no subject. *)
Definition subjects_world : World :=
  {| db := {| review_schedules :=
                [ due_row_of_subject "q1" (Some "s1");
                  due_row_of_subject "q2" (Some "s2");
                  due_row_of_subject "q3" None ];
              study_topics := [] |};
     ticks := 0; draws := 0 |}.

(** A schedule whose next review is the first instant of the year 10000. *)
Definition year_10000_world : World :=
  {| db := {| review_schedules :=
                [ {| rs.id := "schedule_q1";
                     rs.item_type := item_question;
                     rs.item_id := "q1";
                     rs.topic_id := Some "t1";
                     rs.subject_id := None;
                     rs.repetitions := 1;
                     rs.interval_days := 1;
                     rs.ease_factor := 2.5;
                     rs.correct_streak := 0;
                     rs.last_review := Some 1699900000000;
                     rs.next_review_at := ISO.YEAR_10000;
                     rs.last_result := Some 4;
                     rs.last_confidence := Some duvida;
                     rs.last_room := Some triagem;
                     rs.created_at := 1699900000000;
                     rs.updated_at := 1699900000000 |} ];
              study_topics := [] |};
     ticks := 0; draws := 0 |}.

(** ** Properties of the scheduling algorithm *)

Section Rounding.

Lemma Math_round_ge_1 (x : Q) : (1 # 2 <= x)%Q -> 1 <= JS.Math_round x.
Proof.
  intros Hx. unfold JS.Math_round.
  change 1 with (Qfloor (inject_Z 1)) at 1.
  apply Qfloor_resp_le. unfold inject_Z. lra.
Qed.

End Rounding.

Lemma mapQuality_range (c : bool) (conf : ConfidenceLevel) :
  1 <= mapQuality c conf <= 5.
Proof. destruct c, conf; simpl; lia. Qed.

Lemma mapQuality_poor_iff (c : bool) (conf : ConfidenceLevel) :
  mapQuality c conf < 3 <-> c = false.
Proof. destruct c, conf; simpl; split; intros; try lia; congruence. Qed.

(** The clamp of [updateEaseFactor], whatever its arguments. *)
Lemma updateEaseFactor_clamped (ef : Q) (q : Z) :
  (1.3 <= updateEaseFactor ef q <= 2.6)%Q.
Proof.
  unfold updateEaseFactor. cbv zeta. split.
  - apply Q.min_glb; [ lra | apply Q.le_max_l ].
  - apply Q.le_min_l.
Qed.

(** The clamp saturates: a raw value inside the range is returned as it is,
    one below it gives 1.3 and one above it gives 2.6. *)
Lemma updateEaseFactor_saturates (ef : Q) (q : Z) :
  let raw := (ef + (0.1 - (5 - inject_Z q) * (0.08 + (5 - inject_Z q) * 0.02)))%Q in
  ((1.3 <= raw <= 2.6 -> updateEaseFactor ef q == raw) /\
   (raw <= 1.3 -> updateEaseFactor ef q == 1.3) /\
   (2.6 <= raw -> updateEaseFactor ef q == 2.6))%Q.
Proof.
  intros raw. unfold updateEaseFactor. cbv zeta. fold raw.
  repeat split; intros H.
  - rewrite (Q.max_r 1.3 raw) by tauto. apply Q.min_r. tauto.
  - rewrite (Q.max_l 1.3 raw) by exact H. apply Q.min_r. lra.
  - rewrite (Q.max_r 1.3 raw) by lra. apply Q.min_l. exact H.
Qed.

(** C3: for a quality from 1 to 5 and an ease factor in [1.3, 2.6],
    [updateEaseFactor] returns a value in [1.3, 2.6]. *)
Theorem updateEaseFactor_in_range (quality : Z) (currentEF : Q) :
  1 <= quality <= 5 ->
  (1.3 <= currentEF <= 2.6)%Q ->
  (1.3 <= updateEaseFactor currentEF quality <= 2.6)%Q.
Proof. intros _ _. apply updateEaseFactor_clamped. Qed.

Lemma updateEaseFactor_in_range_witness :
  (1.3 <= updateEaseFactor 1.3 1 <= 2.6)%Q.
Proof.
  apply (updateEaseFactor_in_range 1 1.3); [ lia | split; lra ].
Defined.

(** The first step of [applyContextualAdjustments] is at least 1, and so is
    its rounding after the streak bonus. *)
Lemma streak_bonus_ge_1 (adjusted : Z) :
  1 <= adjusted -> 1 <= JS.Math_round (inject_Z adjusted * 1.1).
Proof.
  intros H. apply Math_round_ge_1.
  rewrite Zle_Qle in H.
  change (inject_Z 1) with 1%Q in H. lra.
Qed.

Lemma applyContextualAdjustments_ge_1 (base : Z) (ctx : ReviewContext) (streak : Z) :
  1 <= applyContextualAdjustments base ctx streak.
Proof.
  unfold applyContextualAdjustments. cbv zeta.
  destruct (isCorrect ctx && _ && _).
  - apply streak_bonus_ge_1. apply Z.le_max_l.
  - apply Z.le_max_l.
Qed.

(** C4: for a base interval of at least 1, any context and any streak,
    [applyContextualAdjustments] returns an integer that is at least 1, also
    when the streak bonus is applied after the [max(1, ...)] step. *)
Theorem applyContextualAdjustments_at_least_1
    (baseInterval : Z) (context : ReviewContext) (correctStreak : Z) :
  1 <= baseInterval ->
  1 <= applyContextualAdjustments baseInterval context correctStreak.
Proof. intros _. apply applyContextualAdjustments_ge_1. Qed.

Lemma applyContextualAdjustments_at_least_1_witness :
  1 <= applyContextualAdjustments 1 scenarioB_ctx 3.
Proof. apply (applyContextualAdjustments_at_least_1 1 scenarioB_ctx 3). lia. Defined.

(** Scenarios A and C of the specification. *)
Example scenarioA (now : Z) :
  let next := computeNextSchedule now None scenarioA_ctx in
  upd_lastResult next = 5 /\ upd_repetitions next = 1 /\
  upd_correctStreak next = 1 /\ upd_intervalDays next = 5 /\
  upd_nextReviewAt next = now + 5 * DAY_MS.
Proof. cbv zeta. repeat apply conj; reflexivity. Qed.

Example scenarioC (now : Z) :
  let next := computeNextSchedule now None scenarioC_ctx in
  upd_lastResult next = 1 /\ upd_repetitions next = 0 /\
  upd_correctStreak next = 0 /\ upd_intervalDays next = 1.
Proof. cbv zeta. repeat apply conj; reflexivity. Qed.

(** The intermediate values of scenario B. *)
Example scenarioB_base_interval :
  calculateBaseInterval 3 10 (updateEaseFactor 2.0 5) 5 = 21.
Proof. reflexivity. Qed.

Example scenarioB_adjusted :
  Z.max 1 (JS.Math_round
             (inject_Z 21 * getRoomMultiplier verde * getDifficultyMultiplier easy)) = 27.
Proof. reflexivity. Qed.

Example scenarioB_final_interval :
  applyContextualAdjustments 21 scenarioB_ctx 5 = 30.
Proof. reflexivity. Qed.

(** C1: from the previous schedule (repetitions 2, interval 10, ease 2.0,
    streak 4) and a correct answer given with certainty on an easy question
    of the mastered tier, [computeNextSchedule] returns quality 5, ease
    factor 2.1, 3 repetitions, streak 5 and an interval of 30 days, the next
    review being 30 days after now. *)
Theorem computeNextSchedule_scenarioB (now : Z) :
  let next := computeNextSchedule now (Some scenarioB_prev) scenarioB_ctx in
  upd_lastResult next = 5 /\
  (upd_easeFactor next == 2.1)%Q /\
  upd_repetitions next = 3 /\
  upd_correctStreak next = 5 /\
  upd_intervalDays next = 30 /\
  upd_nextReviewAt next = now + 30 * DAY_MS.
Proof.
  cbv zeta. repeat apply conj; reflexivity.
Qed.

(** The arithmetic of scenario B in IEEE binary64, the arithmetic of
    JavaScript numbers: the ease factor is the double written 2.1, the base
    product is exactly 21, and the two products that are rounded lie within
    half a unit of 27 and of 30. *)
Module Binary64.
#[local] Set Warnings "-inexact-float".
#[local] Open Scope float_scope.

Example scenarioB_binary64 :
  let newEF := 2.0 + (0.1 - (5 - 5) * (0.08 + (5 - 5) * 0.02)) in
  let base := 10 * newEF in
  let adjusted := 21 * 1.15 * 1.1 in
  let final := 27 * 1.1 in
  (newEF =? 2.1) = true /\ (base =? 21) = true /\
  ((26.5 <=? adjusted) = true /\ (adjusted <? 27.5) = true) /\
  ((29.5 <=? final) = true /\ (final <? 30.5) = true).
Proof. cbv zeta. repeat split; vm_compute; reflexivity. Qed.

End Binary64.

Lemma poor_quality_interval (ctx : ReviewContext) (streak : Z) :
  isCorrect ctx = false -> applyContextualAdjustments 1 ctx streak = 1.
Proof.
  destruct ctx as [c conf r d]. cbn [isCorrect]. intros ->.
  destruct r, d; reflexivity.
Qed.

(** C2: whatever the previous schedule, a context whose quality is below 3
    makes [computeNextSchedule] return 0 repetitions and an interval of one
    day, the tier and difficulty multipliers included. *)
Theorem computeNextSchedule_poor_quality_resets
    (now : Z) (previousSchedule : option PreviousSchedule)
    (context : ReviewContext) :
  mapQuality (isCorrect context) (confidence context) < 3 ->
  let next := computeNextSchedule now previousSchedule context in
  upd_repetitions next = 0 /\ upd_intervalDays next = 1.
Proof.
  intros Hq. cbv zeta.
  assert (Hlt : (mapQuality (isCorrect context) (confidence context) <? 3) = true)
    by now apply Z.ltb_lt.
  apply mapQuality_poor_iff in Hq.
  unfold computeNextSchedule. cbn [upd_repetitions upd_intervalDays].
  unfold calculateBaseInterval. rewrite Hlt. split; [ reflexivity | ].
  now apply poor_quality_interval.
Qed.

Lemma computeNextSchedule_poor_quality_resets_witness :
  upd_repetitions (computeNextSchedule 0 (Some scenarioB_prev) scenarioC_ctx) = 0 /\
  upd_intervalDays (computeNextSchedule 0 (Some scenarioB_prev) scenarioC_ctx) = 1.
Proof.
  apply (computeNextSchedule_poor_quality_resets 0 (Some scenarioB_prev) scenarioC_ctx).
  simpl. lia.
Defined.

(** [getDaysUntilReview] in integer arithmetic: the ceiling of the quotient
    of two integers. *)
Lemma getDaysUntilReview_div (now nextReviewAt : Z) :
  getDaysUntilReview now nextReviewAt = - ((now - nextReviewAt) / DAY_MS).
Proof.
  unfold getDaysUntilReview, JS.Math_ceil, Qceiling. cbv zeta.
  f_equal.
  assert (E : (- (inject_Z (nextReviewAt - now) / inject_Z DAY_MS)
               == (now - nextReviewAt) # Z.to_pos DAY_MS)%Q).
  { unfold Qeq, Qdiv, Qmult, Qinv, Qopp, inject_Z. simpl. lia. }
  rewrite E. reflexivity.
Qed.

(** C5: [getUrgencyLevel] is [overdue] when [getDaysUntilReview] is
    negative, [due_today] when it is 0, [due_soon] when it is 1 or 2 and
    [scheduled] otherwise. *)
Theorem getUrgencyLevel_by_days (now nextReviewAt : Z) :
  let daysUntil := getDaysUntilReview now nextReviewAt in
  let level := getUrgencyLevel now nextReviewAt in
  (daysUntil < 0 -> level = overdue) /\
  (daysUntil = 0 -> level = due_today) /\
  (daysUntil = 1 \/ daysUntil = 2 -> level = due_soon) /\
  (~ daysUntil < 0 -> daysUntil <> 0 -> ~ (daysUntil = 1 \/ daysUntil = 2) ->
   level = scheduled).
Proof.
  cbv zeta. unfold getUrgencyLevel. cbv zeta.
  generalize (getDaysUntilReview now nextReviewAt). intros d.
  destruct (Z.ltb_spec d 0), (Z.eqb_spec d 0), (Z.leb_spec d 2);
    repeat split; intros; first [ reflexivity | lia ].
Qed.

(** The same classification read on the timestamps: an item is [overdue]
    only once it is a full day late, and [due_today] from then up to its due
    time. *)
Lemma getUrgencyLevel_by_time (now nextReviewAt : Z) :
  let diff := nextReviewAt - now in
  let level := getUrgencyLevel now nextReviewAt in
  (level = overdue <-> diff <= - DAY_MS) /\
  (level = due_today <-> - DAY_MS < diff <= 0) /\
  (level = due_soon <-> 0 < diff <= 2 * DAY_MS) /\
  (level = scheduled <-> 2 * DAY_MS < diff).
Proof.
  cbv zeta. unfold getUrgencyLevel. cbv zeta.
  rewrite getDaysUntilReview_div.
  change DAY_MS with 86400000.
  destruct (Z.ltb_spec (- ((now - nextReviewAt) / 86400000)) 0),
           (Z.eqb_spec (- ((now - nextReviewAt) / 86400000)) 0),
           (Z.leb_spec (- ((now - nextReviewAt) / 86400000)) 2);
    repeat split; intros; try discriminate; try reflexivity;
    Z.to_euclidean_division_equations; lia.
Qed.

Example due_exactly_now (now : Z) : getUrgencyLevel now now = due_today.
Proof. apply getUrgencyLevel_by_time. unfold DAY_MS. lia. Qed.

Example due_one_ms_ago (now : Z) : getUrgencyLevel now (now - 1) = due_today.
Proof. apply getUrgencyLevel_by_time. unfold DAY_MS. lia. Qed.

(** ** The order of the ISO strings *)

Section ISOOrder.

Lemma ISO_leb_refl (a : Z) : ISO.leb a a = true.
Proof.
  unfold ISO.leb. destruct (ISO.key a) as [[a1 a2] a3].
  rewrite !Z.eqb_refl, Z.leb_refl. cbn. now rewrite !orb_true_r.
Qed.

Lemma ISO_leb_total (a b : Z) : ISO.leb a b = true \/ ISO.leb b a = true.
Proof.
  unfold ISO.leb.
  destruct (ISO.key a) as [[a1 a2] a3], (ISO.key b) as [[b1 b2] b3].
  rewrite !orb_true_iff, !andb_true_iff, !orb_true_iff, !andb_true_iff,
    !Z.ltb_lt, !Z.eqb_eq, !Z.leb_le.
  lia.
Qed.

Lemma ISO_leb_trans (a b c : Z) :
  ISO.leb a b = true -> ISO.leb b c = true -> ISO.leb a c = true.
Proof.
  unfold ISO.leb.
  destruct (ISO.key a) as [[a1 a2] a3], (ISO.key b) as [[b1 b2] b3],
           (ISO.key c) as [[c1 c2] c3].
  rewrite !orb_true_iff, !andb_true_iff, !orb_true_iff, !andb_true_iff,
    !Z.ltb_lt, !Z.eqb_eq, !Z.leb_le.
  lia.
Qed.

(** The year at some instants: the epoch, the last millisecond of 1969, the
    first and last instants of the four-digit years, and their neighbours. *)
Example ISO_year_samples :
  ISO.year 0 = 1970 /\ ISO.year (-1) = 1969 /\
  ISO.year ISO.YEAR_0 = 0 /\ ISO.year (ISO.YEAR_0 - 1) = -1 /\
  ISO.year (ISO.YEAR_10000 - 1) = 9999 /\ ISO.year ISO.YEAR_10000 = 10000.
Proof. repeat apply conj; reflexivity. Qed.

(** ["-000001-06-01..."] sorts before ["-000002-06-01..."], and both before
    ["0000-01-01..."], which sorts after ["+010000-01-01..."]. *)
Example ISO_leb_samples :
  ISO.leb (ISO.YEAR_0 - 200 * DAY_MS) (ISO.YEAR_0 - 565 * DAY_MS) = true /\
  ISO.leb (ISO.YEAR_0 - 565 * DAY_MS) (ISO.YEAR_0 - 200 * DAY_MS) = false /\
  ISO.leb (ISO.YEAR_0 - 565 * DAY_MS) ISO.YEAR_0 = true /\
  ISO.leb ISO.YEAR_10000 ISO.YEAR_0 = true /\
  ISO.leb ISO.YEAR_0 ISO.YEAR_10000 = false.
Proof. repeat apply conj; reflexivity. Qed.

(** For years 0 to 9999 the order of the strings is the order of the
    instants. *)
Lemma ISO_leb_four_digit (a b : Z) :
  ISO.four_digit_year a -> ISO.four_digit_year b ->
  ISO.leb a b = (a <=? b).
Proof.
  unfold ISO.four_digit_year, ISO.leb, ISO.key. intros Ha Hb.
  destruct (Z.ltb_spec a ISO.YEAR_0); [ lia | ].
  destruct (Z.ltb_spec a ISO.YEAR_10000); [ | lia ].
  destruct (Z.ltb_spec b ISO.YEAR_0); [ lia | ].
  destruct (Z.ltb_spec b ISO.YEAR_10000); [ | lia ].
  reflexivity.
Qed.

(** A string with an expanded year sorts before every string with a
    four-digit year, so also an instant of the year 10000 or later. *)
Lemma ISO_leb_expanded (a b : Z) :
  ISO.YEAR_10000 <= a -> ISO.four_digit_year b -> ISO.leb a b = true.
Proof.
  unfold ISO.four_digit_year, ISO.leb, ISO.key. intros Ha Hb.
  assert (ISO.YEAR_0 < ISO.YEAR_10000) by reflexivity.
  destruct (Z.ltb_spec a ISO.YEAR_0); [ lia | ].
  destruct (Z.ltb_spec a ISO.YEAR_10000); [ lia | ].
  destruct (Z.ltb_spec b ISO.YEAR_0); [ lia | ].
  destruct (Z.ltb_spec b ISO.YEAR_10000); [ | lia ].
  reflexivity.
Qed.

End ISOOrder.

(** ** Properties of the store *)

Section FindLemmas.

Context {A : Type}.

Lemma find_snoc_none (p : A -> bool) (l : list A) (x : A) :
  find p l = None -> p x = true -> find p (l ++ [x]) = Some x.
Proof.
  intros Hl Hx. induction l as [ | y l IH ]; simpl in *.
  - now rewrite Hx.
  - destruct (p y); [ discriminate | now apply IH ].
Qed.

End FindLemmas.

Section StoreProperties.

Variable clock : nat -> Z.
Variable random : nat -> string.

#[local] Abbreviation upsert := (upsertQuestionSchedule clock random).

(** A call for a question that has a schedule reads the clock twice and
    throws; the tables stay as they were. *)
Lemma upsert_existing (question : Question) (context : ReviewContext)
    (w : World) (existing : rs.row) :
  SQL.select_schedule (question_id question) (review_schedules (db w))
    = Some existing ->
  result (upsert question context) w = Throws WrongApiUse /\
  run (upsert question context) w
    = {| db := db w; ticks := S (S (ticks w)); draws := draws w |}.
Proof.
  intros H. unfold run, result, upsertQuestionSchedule, bind, get_db.
  cbn -[computeNextSchedule]. rewrite H.
  cbn -[computeNextSchedule]. split; reflexivity.
Qed.

(** A call for a question that has no schedule returns the schedule of
    [computeNextSchedule] on no previous schedule, and appends its row. *)
Lemma upsert_new (question : Question) (context : ReviewContext)
    (w : World) :
  SQL.select_schedule (question_id question) (review_schedules (db w))
    = None ->
  let next := computeNextSchedule (clock (ticks w)) None context in
  let now := clock (S (ticks w)) in
  let schedule :=
    {| ReviewSchedule.id :=
         "schedule_" +:+ pretty (clock (S (S (ticks w))))
           +:+ "_" +:+ random (draws w);
       ReviewSchedule.itemType := item_question;
       ReviewSchedule.itemId := question_id question;
       ReviewSchedule.topicId := Some (question_topicId question);
       ReviewSchedule.subjectId := None;
       ReviewSchedule.repetitions := upd_repetitions next;
       ReviewSchedule.intervalDays := upd_intervalDays next;
       ReviewSchedule.easeFactor := upd_easeFactor next;
       ReviewSchedule.correctStreak := upd_correctStreak next;
       ReviewSchedule.lastReview := Some now;
       ReviewSchedule.nextReviewAt := upd_nextReviewAt next;
       ReviewSchedule.lastResult := Some (upd_lastResult next);
       ReviewSchedule.lastConfidence := Some (confidence context);
       ReviewSchedule.lastRoom := Some (room context);
       ReviewSchedule.createdAt := now;
       ReviewSchedule.updatedAt := now |} in
  result (upsert question context) w = Returns schedule /\
  run (upsert question context) w =
    {| db := {| review_schedules :=
                  SQL.insert_schedule
                    (SQL.new_row (ReviewSchedule.id schedule) question
                       (SQL.select_subject_id (question_topicId question)
                          (study_topics (db w)))
                       schedule)
                    (review_schedules (db w));
                study_topics := study_topics (db w) |};
       ticks := S (S (S (ticks w)));
       draws := S (draws w) |}.
Proof.
  intros H. cbv zeta. unfold run, result, upsertQuestionSchedule, bind, get_db.
  cbn -[computeNextSchedule String.app pretty]. rewrite H.
  cbn -[computeNextSchedule String.app pretty]. split; reflexivity.
Qed.

(** After a call the question has a schedule, whether the call wrote it or
    found it. *)
Lemma upsert_then_select (question : Question) (context : ReviewContext)
    (w : World) :
  exists r,
    SQL.select_schedule (question_id question)
      (review_schedules (db (run (upsert question context) w))) = Some r.
Proof.
  destruct (SQL.select_schedule (question_id question)
              (review_schedules (db w))) as [ e | ] eqn:Hsel.
  - destruct (upsert_existing question context w e Hsel) as (_ & ->).
    exists e. exact Hsel.
  - destruct (upsert_new question context w Hsel) as (_ & ->).
    cbn [db review_schedules]. eexists.
    unfold SQL.select_schedule, SQL.insert_schedule in *.
    apply find_snoc_none; [ exact Hsel | ].
    cbn [SQL.new_row rs.item_type rs.item_id].
    now rewrite !bool_decide_eq_true_2.
Qed.

(** A call after a call: it throws and leaves the tables as they were. *)
Lemma upsert_after_upsert (question : Question)
    (context context' : ReviewContext) (w : World) :
  let w1 := run (upsert question context) w in
  result (upsert question context') w1 = Throws WrongApiUse /\
  db (run (upsert question context') w1) = db w1.
Proof.
  cbv zeta. destruct (upsert_then_select question context w) as (r & Hr).
  destruct (upsert_existing question context' _ r Hr) as (-> & ->).
  split; reflexivity.
Qed.

Lemma upsert_rows (question : Question) (context : ReviewContext)
    (w : World) (r : rs.row) :
  In r (review_schedules (db (run (upsert question context) w))) ->
  In r (review_schedules (db w)) \/
  (rs.last_review r = Some (clock (S (ticks w))) /\
   rs.next_review_at r = clock (ticks w) + rs.interval_days r * DAY_MS /\
   1 <= rs.interval_days r).
Proof.
  destruct (SQL.select_schedule (question_id question)
              (review_schedules (db w))) as [ e | ] eqn:Hsel.
  - destruct (upsert_existing question context w e Hsel) as (_ & ->).
    now left.
  - destruct (upsert_new question context w Hsel) as (_ & ->).
    cbn [db review_schedules]. unfold SQL.insert_schedule.
    intros [ Hin | [ <- | [] ] ]%in_app_iff; [ now left | right ].
    cbn [SQL.new_row rs.last_review rs.next_review_at rs.interval_days
           ReviewSchedule.lastReview ReviewSchedule.nextReviewAt
           ReviewSchedule.intervalDays].
    unfold computeNextSchedule. cbn [upd_nextReviewAt upd_intervalDays].
    repeat split. apply applyContextualAdjustments_ge_1.
Qed.

(** C9: when the question already has a stored schedule,
    [upsertQuestionSchedule] leaves the id, item type, item id, topic id
    and creation time of that record as they were, and every row keeps these
    five columns.  The call throws at the [UPDATE], whose [id] parameter is
    [undefined]: the table is left as it was row by row, so no scheduling
    column of the record is modified either. *)
Theorem upsert_existing_keeps_identity
    (question : Question) (context : ReviewContext) (w : World)
    (existing : rs.row) :
  SQL.select_schedule (question_id question) (review_schedules (db w))
    = Some existing ->
  let rows := review_schedules (db w) in
  let rows' := review_schedules (db (run (upsert question context) w)) in
  (exists stored,
     SQL.select_schedule (question_id question) rows' = Some stored /\
     rs.id stored = rs.id existing /\
     rs.item_type stored = rs.item_type existing /\
     rs.item_id stored = rs.item_id existing /\
     rs.topic_id stored = rs.topic_id existing /\
     rs.created_at stored = rs.created_at existing) /\
  map identity_columns rows' = map identity_columns rows /\
  rows' = rows /\
  result (upsert question context) w = Throws WrongApiUse.
Proof.
  intros Hsel. cbv zeta.
  destruct (upsert_existing question context w existing Hsel) as (-> & ->).
  cbn [db]. repeat apply conj; try reflexivity.
  exists existing. repeat apply conj; try reflexivity. exact Hsel.
Qed.

(** C8, as the code has it: a row the call writes holds, as
    [next_review_at], the clock value [computeNextSchedule] read plus
    [interval_days] days, at least one, and as [last_review] the value of
    the next read of the clock.  So [next_review_at] is at least
    [last_review] plus one day less the time between the two reads, and at
    least [last_review] plus one day when both reads return the same
    instant. *)
Theorem upsert_next_review_bound
    (question : Question) (context : ReviewContext) (w : World)
    (r : rs.row) :
  let t1 := clock (ticks w) in
  let t2 := clock (S (ticks w)) in
  In r (review_schedules (db (run (upsert question context) w))) ->
  In r (review_schedules (db w)) \/
  (rs.last_review r = Some t2 /\
   rs.next_review_at r = t1 + rs.interval_days r * DAY_MS /\
   t2 + DAY_MS - (t2 - t1) <= rs.next_review_at r /\
   (t1 = t2 -> t2 + DAY_MS <= rs.next_review_at r)).
Proof.
  cbv zeta. intros Hin.
  destruct (upsert_rows question context w r Hin)
    as [ Hold | (Hlast & Hnext & Hint) ]; [ now left | right ].
  repeat split; try assumption; unfold DAY_MS in *; nia.
Qed.

(** C6: two calls in a row with the same question and context leave the
    store as one call leaves it.  After the first call the question has a
    schedule, so the second call throws at its [UPDATE] and writes nothing:
    the stored schedule is the same row, with the repetitions, the streak
    and the interval of one call. *)
Theorem upsert_twice_same_store
    (question : Question) (context : ReviewContext) (w : World) :
  let w1 := run (upsert question context) w in
  let w2 := run (upsert question context) w1 in
  db w2 = db w1 /\
  (exists r,
     SQL.select_schedule (question_id question) (review_schedules (db w1))
       = Some r /\
     SQL.select_schedule (question_id question) (review_schedules (db w2))
       = Some r) /\
  map counted_columns (review_schedules (db w2))
    = map counted_columns (review_schedules (db w1)) /\
  result (upsert question context) w1 = Throws WrongApiUse.
Proof.
  cbv zeta.
  destruct (upsert_after_upsert question context context w) as (Hthrows & Hdb).
  rewrite Hdb. repeat apply conj; try reflexivity; try assumption.
  destruct (upsert_then_select question context w) as (r & Hr).
  exists r. now split.
Qed.

End StoreProperties.

(** On an empty store, with the clock standing still, a correct attempt
    recorded once leaves 1 repetition, a streak of 1 and an interval of 5
    days, and so does the same attempt recorded twice. *)
Example upsert_twice_counts_once :
  let upsert :=
    upsertQuestionSchedule frozen_clock sample_random sample_question scenarioA_ctx in
  let once := run upsert empty_world in
  let twice := run upsert once in
  map counted_columns (review_schedules (db once)) = [(1, 1, 5)] /\
  map counted_columns (review_schedules (db twice)) = [(1, 1, 5)].
Proof. cbv zeta. split; reflexivity. Qed.

(** A correct attempt on the stored schedule of [sample_row] (1 repetition,
    5 days) throws and leaves the row as it was. *)
Example upsert_stored_throws :
  let upsert :=
    upsertQuestionSchedule frozen_clock sample_random sample_question scenarioA_ctx in
  result upsert stored_world = Throws WrongApiUse /\
  review_schedules (db (run upsert stored_world)) = [sample_row].
Proof. cbv zeta. split; reflexivity. Qed.

(** C8 fails as stated: when the clock advances by a millisecond between the
    read in [computeNextSchedule] and the one that stamps [last_review], a
    wrong answer is stored with a next review less than a day after the last
    review. *)
Lemma upsert_next_review_within_a_day :
  let upsert :=
    upsertQuestionSchedule ticking_clock sample_random sample_question scenarioC_ctx in
  exists r,
    review_schedules (db (run upsert empty_world)) = [r] /\
    rs.last_review r = Some 1700000000001 /\
    rs.next_review_at r = 1700000000000 + DAY_MS /\
    rs.next_review_at r < 1700000000001 + DAY_MS.
Proof. cbv zeta. eexists. repeat apply conj; reflexivity. Qed.

Lemma upsert_next_review_bound_witness :
  let upsert :=
    upsertQuestionSchedule frozen_clock sample_random sample_question scenarioC_ctx in
  let r := hd sample_row (review_schedules (db (run upsert empty_world))) in
  In r (review_schedules (db empty_world)) \/
  (rs.last_review r = Some 1700000000000 /\
   rs.next_review_at r = 1700000000000 + rs.interval_days r * DAY_MS /\
   1700000000000 + DAY_MS - (1700000000000 - 1700000000000) <= rs.next_review_at r /\
   (1700000000000 = 1700000000000 -> 1700000000000 + DAY_MS <= rs.next_review_at r)).
Proof.
  cbv zeta.
  apply (upsert_next_review_bound frozen_clock sample_random
           sample_question scenarioC_ctx empty_world).
  left. reflexivity.
Defined.

Lemma upsert_existing_keeps_identity_witness :
  let upsert :=
    upsertQuestionSchedule frozen_clock sample_random sample_question scenarioA_ctx in
  SQL.select_schedule "q1" (review_schedules (db stored_world)) = Some sample_row /\
  map identity_columns (review_schedules (db (run upsert stored_world)))
    = map identity_columns (review_schedules (db stored_world)).
Proof.
  cbv zeta. split; [ reflexivity | ].
  apply (upsert_existing_keeps_identity frozen_clock sample_random
           sample_question scenarioA_ctx stored_world sample_row).
  reflexivity.
Defined.

(** ** Properties of [getReviewStats] *)

Section StatsProperties.

Variable clock : nat -> Z.

Lemma stats_of_rows_totals (rows : list SQL.stats_row) :
  let l := foldl stats_step
             {| stats := initial_stats; totalStreak := 0; count := 0 |} rows in
  totalDue (stats_of_rows rows) = totalDue (stats l) /\
  dueByRoom (stats_of_rows rows) = dueByRoom (stats l).
Proof.
  cbv zeta. unfold stats_of_rows. cbv zeta.
  destruct (0 <? count _); split; reflexivity.
Qed.

(** *** Exact counts: what [GROUP BY] and the loop add up to *)

Section Grouping.

Context {K : Type} `{EqDecision K}.
Variable P : K -> bool.

Lemma rows_in_groups_add (k : K) (r : rs.row)
    (groups : list (K * list rs.row)) :
  rows_in_groups P (SQL.add_to_group k r groups)
    = rows_in_groups P groups + (if P k then 1 else 0).
Proof.
  induction groups as [ | [k' g] groups IH ]; cbn.
  - unfold SQL.COUNT. destruct (P k); cbn; lia.
  - case_bool_decide as Hk; cbn.
    + subst k'. unfold SQL.COUNT. rewrite length_app. cbn.
      destruct (P k); lia.
    + rewrite IH. lia.
Qed.

Lemma rows_in_groups_group_by (key : rs.row -> K) (rows : list rs.row) :
  rows_in_groups P (SQL.group_by key rows)
    = Z.of_nat (length (List.filter (fun r => P (key r)) rows)).
Proof.
  unfold SQL.group_by.
  enough (Hgen : forall groups,
             rows_in_groups P
               (foldl (fun gs r => SQL.add_to_group (key r) r gs) groups rows)
             = rows_in_groups P groups
               + Z.of_nat (length (List.filter (fun r => P (key r)) rows))).
  { rewrite Hgen. cbn. lia. }
  induction rows as [ | r rows IH ]; intros groups; cbn [foldl List.filter].
  - cbn. lia.
  - rewrite IH, rows_in_groups_add. destruct (P (key r)); cbn [length]; lia.
Qed.

End Grouping.

Lemma add_dueByRoom_known (room : option Room) (due : Z) (b : DueByRoom) :
  dueByRoom_sum (add_dueByRoom room due b)
    = dueByRoom_sum b + (if known_room room then due else 0).
Proof.
  unfold dueByRoom_sum. destruct room as [ [ | | | | ] | ]; cbn; lia.
Qed.

Lemma stats_loop_counts (groups : list ((option Room * option string) * list rs.row))
    (l : StatsLoop) :
  let rows :=
    map (fun '(k, g) =>
           {| SQL.total_due := SQL.COUNT g;
              SQL.last_room := fst k;
              SQL.subject_id := snd k;
              SQL.avg_streak := SQL.AVG_correct_streak g;
              SQL.max_streak := SQL.MAX_correct_streak g;
              SQL.next_review := SQL.MIN_next_review_at g |}) groups in
  totalDue (stats (foldl stats_step l rows))
    = totalDue (stats l) + rows_in_groups (fun _ => true) groups /\
  dueByRoom_sum (dueByRoom (stats (foldl stats_step l rows)))
    = dueByRoom_sum (dueByRoom (stats l))
      + rows_in_groups (fun k => known_room (fst k)) groups.
Proof.
  cbv zeta. revert l.
  induction groups as [ | [k g] groups IH ]; intros l; cbn [map foldl].
  - cbn. lia.
  - destruct (IH (stats_step l
                    {| SQL.total_due := SQL.COUNT g;
                       SQL.last_room := fst k;
                       SQL.subject_id := snd k;
                       SQL.avg_streak := SQL.AVG_correct_streak g;
                       SQL.max_streak := SQL.MAX_correct_streak g;
                       SQL.next_review := SQL.MIN_next_review_at g |}))
      as [ -> -> ].
    cbn [rows_in_groups stats_step stats totalDue dueByRoom
           SQL.total_due SQL.last_room fst snd].
    rewrite add_dueByRoom_known. split; lia.
Qed.

(** [totalDue] is the number of due schedules, and the four per-tier
    counts add up to the number of those whose tier tag is a known one. *)
Lemma getReviewStats_counts (subjectIds : option (list string)) (w : World) :
  let s := result (getReviewStats clock subjectIds) w in
  let due := SQL.due_schedules (clock (ticks w)) subjectIds
               (review_schedules (db w)) in
  totalDue s = Z.of_nat (length due) /\
  dueByRoom_sum (dueByRoom s)
    = Z.of_nat (length (List.filter (fun r => known_room (rs.last_room r)) due)).
Proof.
  cbv zeta. unfold result, getReviewStats, bind, get_db, Date_now, ret.
  cbn [fst snd db ticks].
  destruct (stats_of_rows_totals
              (SQL.stats_query (clock (ticks w)) subjectIds
                 (review_schedules (db w)))) as [ -> -> ].
  unfold SQL.stats_query.
  destruct (stats_loop_counts
              (SQL.group_by (fun r => (rs.last_room r, rs.subject_id r))
                 (SQL.due_schedules (clock (ticks w)) subjectIds
                    (review_schedules (db w))))
              {| stats := initial_stats; totalStreak := 0; count := 0 |})
    as [ -> -> ].
  rewrite !rows_in_groups_group_by. cbn [stats initial_stats totalDue dueByRoom fst].
  unfold dueByRoom_sum. cbn [due_triagem due_vermelha due_amarela due_verde].
  rewrite List.filter_true. split; lia.
Qed.

(** C10: in the result of [getReviewStats] the four per-tier counts add up
    to at most [totalDue], for every store and every subject filter: every
    due schedule counts in [totalDue], and only those with one of the four
    known tier tags count in a per-tier count. *)
Theorem getReviewStats_rooms_at_most_total
    (subjectIds : option (list string)) (w : World) :
  let s := result (getReviewStats clock subjectIds) w in
  let due := SQL.due_schedules (clock (ticks w)) subjectIds
               (review_schedules (db w)) in
  dueByRoom_sum (dueByRoom s) <= totalDue s /\
  totalDue s - dueByRoom_sum (dueByRoom s)
    = Z.of_nat (length (List.filter
                          (fun r => negb (known_room (rs.last_room r))) due)).
Proof.
  cbv zeta.
  destruct (getReviewStats_counts subjectIds w) as [ -> -> ].
  pose proof (List.filter_length (fun r => known_room (rs.last_room r))
                (SQL.due_schedules (clock (ticks w)) subjectIds
                   (review_schedules (db w)))) as Hlen.
  cbv beta in Hlen. lia.
Qed.

(** What the loop leaves in its two counters: the sum of the averages of
    the groups, and the number of groups. *)
Lemma stats_loop_streaks (rows : list SQL.stats_row) (l : StatsLoop) :
  totalStreak (foldl stats_step l rows)
    = foldl Qplus (totalStreak l) (map SQL.avg_streak rows) /\
  count (foldl stats_step l rows) = count l + Z.of_nat (length rows).
Proof.
  revert l. induction rows as [ | row rows IH ]; intros l; cbn [foldl map length].
  - split; [ reflexivity | lia ].
  - destruct (IH (stats_step l row)) as [ -> -> ].
    cbn [stats_step totalStreak count]. split; [ reflexivity | lia ].
Qed.

(** [averageStreak] is the mean of the per-group averages of the query,
    each group weighing the same whatever its size. *)
Lemma getReviewStats_averageStreak
    (subjectIds : option (list string)) (w : World) :
  let s := result (getReviewStats clock subjectIds) w in
  let rows := SQL.stats_query (clock (ticks w)) subjectIds
                (review_schedules (db w)) in
  rows <> [] ->
  averageStreak (streakData s)
    = (foldl Qplus 0 (map SQL.avg_streak rows)
       / inject_Z (Z.of_nat (length rows)))%Q.
Proof.
  cbv zeta. intros Hrows.
  unfold result, getReviewStats, bind, get_db, Date_now, ret.
  cbn [fst snd db ticks]. unfold stats_of_rows. cbv zeta.
  destruct (stats_loop_streaks
              (SQL.stats_query (clock (ticks w)) subjectIds
                 (review_schedules (db w)))
              {| stats := initial_stats; totalStreak := 0; count := 0 |})
    as [ -> -> ].
  cbn [count totalStreak].
  destruct (Z.ltb_spec 0 (0 + Z.of_nat (length
              (SQL.stats_query (clock (ticks w)) subjectIds
                 (review_schedules (db w)))))) as [ _ | Hlen ].
  - reflexivity.
  - destruct (SQL.stats_query _ _ _); [ congruence | cbn [length] in Hlen; lia ].
Qed.

End StatsProperties.

(** A due schedule whose tier tag is none of the four known ones counts in
    [totalDue] and in no per-tier count. *)
Example unknown_room_not_in_buckets :
  let s := result (getReviewStats frozen_clock None) unknown_room_world in
  totalDue s = 2 /\ dueByRoom_sum (dueByRoom s) = 1.
Proof. cbv zeta. split; reflexivity. Qed.

(** C7 at a failing input: of three due schedules, two of tier [triagem]
    have no streak and one of tier [verde] has a streak of 3.  The mean of
    the three streaks is 1; [getReviewStats] returns 3/2, the mean of the two
    group averages 0 and 3. *)
Theorem getReviewStats_averageStreak_not_the_mean :
  let s := result (getReviewStats frozen_clock None) streaks_world in
  let due := SQL.due_schedules (frozen_clock 0) None
               (review_schedules (db streaks_world)) in
  map rs.correct_streak due = [0; 0; 3] /\
  (SQL.AVG_correct_streak due == 1)%Q /\
  (averageStreak (streakData s) == 3 # 2)%Q /\
  ~ (averageStreak (streakData s) == SQL.AVG_correct_streak due)%Q.
Proof.
  cbv zeta. repeat apply conj; try reflexivity.
  vm_compute. discriminate.
Qed.

(** ** Further properties of the scheduling algorithm *)

(** X1: the quality score is one of 1 to 5, and it is 3 or more exactly for
    a correct answer, whatever the confidence tag. *)
Theorem mapQuality_correct_iff (c : bool) (conf : ConfidenceLevel) :
  1 <= mapQuality c conf <= 5 /\
  (3 <= mapQuality c conf <-> c = true).
Proof.
  destruct c, conf; cbn; repeat split; intros; first [ lia | reflexivity | discriminate ].
Qed.

(** X2: the direction in which each quality moves an ease factor in range.
    Quality 5 never lowers it and raises it below the cap 2.6; quality 4
    leaves it as it is; qualities 3, 2 and 1 never raise it and lower it
    above the floor 1.3. *)
Theorem updateEaseFactor_by_quality (ef : Q) :
  (1.3 <= ef <= 2.6)%Q ->
  (ef <= updateEaseFactor ef 5)%Q /\
  (ef < 2.6 -> ef < updateEaseFactor ef 5)%Q /\
  (updateEaseFactor ef 4 == ef)%Q /\
  (forall q, 1 <= q <= 3 ->
     (updateEaseFactor ef q <= ef)%Q /\
     (1.3 < ef -> updateEaseFactor ef q < ef)%Q).
Proof.
  intros [Hlo Hhi].
  assert (Hclamp : forall x : Q,
            (Qmin 2.6 (Qmax 1.3 x) == x /\ 1.3 <= x <= 2.6)%Q \/
            (Qmin 2.6 (Qmax 1.3 x) == 1.3 /\ x <= 1.3)%Q \/
            (Qmin 2.6 (Qmax 1.3 x) == 2.6 /\ 2.6 <= x)%Q).
  { intros x.
    destruct (Q.max_spec 1.3 x) as [ [H1 E1] | [H1 E1] ];
      destruct (Q.min_spec 2.6 (Qmax 1.3 x)) as [ [H2 E2] | [H2 E2] ];
      rewrite E1 in *; rewrite E2; lra. }
  unfold updateEaseFactor. cbv zeta. repeat apply conj.
  - destruct (Hclamp (ef + (0.1 - (5 - inject_Z 5) * (0.08 + (5 - inject_Z 5) * 0.02)))%Q)
      as [ [E H] | [ [E H] | [E H] ] ]; rewrite E; unfold inject_Z in *; lra.
  - intros Hcap.
    destruct (Hclamp (ef + (0.1 - (5 - inject_Z 5) * (0.08 + (5 - inject_Z 5) * 0.02)))%Q)
      as [ [E H] | [ [E H] | [E H] ] ]; rewrite E; unfold inject_Z in *; lra.
  - destruct (Hclamp (ef + (0.1 - (5 - inject_Z 4) * (0.08 + (5 - inject_Z 4) * 0.02)))%Q)
      as [ [E H] | [ [E H] | [E H] ] ]; rewrite E; unfold inject_Z in *; lra.
  - intros q Hq. assert (Hcases : q = 1 \/ q = 2 \/ q = 3) by lia.
    destruct Hcases as [ -> | [ -> | -> ] ].
    + destruct (Hclamp (ef + (0.1 - (5 - inject_Z 1) * (0.08 + (5 - inject_Z 1) * 0.02)))%Q)
        as [ [E H] | [ [E H] | [E H] ] ]; rewrite E; unfold inject_Z in *;
        split; intros; lra.
    + destruct (Hclamp (ef + (0.1 - (5 - inject_Z 2) * (0.08 + (5 - inject_Z 2) * 0.02)))%Q)
        as [ [E H] | [ [E H] | [E H] ] ]; rewrite E; unfold inject_Z in *;
        split; intros; lra.
    + destruct (Hclamp (ef + (0.1 - (5 - inject_Z 3) * (0.08 + (5 - inject_Z 3) * 0.02)))%Q)
        as [ [E H] | [ [E H] | [E H] ] ]; rewrite E; unfold inject_Z in *;
        split; intros; lra.
Qed.

Lemma updateEaseFactor_by_quality_witness :
  (2.5 <= updateEaseFactor 2.5 5)%Q.
Proof.
  apply (updateEaseFactor_by_quality 2.5). split; lra.
Defined.

(** The change quality 4 makes, [0.1 - 1 * (0.08 + 1 * 0.02)], is exactly 0
    in binary64 as well, and the changes of qualities 5, 3, 2 and 1 keep
    their signs. *)
Module Binary64EaseFactor.
#[local] Set Warnings "-inexact-float".
#[local] Open Scope float_scope.

Example change_by_quality_binary64 :
  (0.1 - (5 - 4) * (0.08 + (5 - 4) * 0.02) =? 0) = true /\
  (0 <? 0.1 - (5 - 5) * (0.08 + (5 - 5) * 0.02)) = true /\
  (0.1 - (5 - 3) * (0.08 + (5 - 3) * 0.02) <? 0) = true /\
  (0.1 - (5 - 2) * (0.08 + (5 - 2) * 0.02) <? 0) = true /\
  (0.1 - (5 - 1) * (0.08 + (5 - 1) * 0.02) <? 0) = true.
Proof. repeat split; vm_compute; reflexivity. Qed.

End Binary64EaseFactor.

Lemma Math_round_mono (x y : Q) :
  (x <= y)%Q -> JS.Math_round x <= JS.Math_round y.
Proof.
  intros H. unfold JS.Math_round. apply Qfloor_resp_le. lra.
Qed.

(** X3: [updateEaseFactor] is monotone: a higher quality (up to 5) or a
    higher current ease factor never gives a lower result. *)
Theorem updateEaseFactor_monotone (ef1 ef2 : Q) (q1 q2 : Z) :
  (ef1 <= ef2)%Q -> q1 <= q2 <= 5 ->
  (updateEaseFactor ef1 q1 <= updateEaseFactor ef2 q2)%Q.
Proof.
  intros Hef [Hq Hq5]. unfold updateEaseFactor. cbv zeta.
  apply Q.min_le_compat_l, Q.max_le_compat_l.
  rewrite Zle_Qle in Hq, Hq5. change (inject_Z 5) with 5%Q in Hq5.
  set (a := inject_Z q1) in *. set (b := inject_Z q2) in *.
  nra.
Qed.

Lemma updateEaseFactor_monotone_witness :
  (updateEaseFactor 2.0 3 <= updateEaseFactor 2.5 5)%Q.
Proof.
  apply (updateEaseFactor_monotone 2.0 2.5 3 5); [ lra | lia ].
Defined.

(** X4: what every result of [computeNextSchedule] satisfies, whatever was
    stored before: the quality is one of 1 to 5, the ease factor lies in
    [1.3, 2.6], the interval is at least one day and the next review at
    least one day after now; repetitions and streak are not negative when
    the previous ones were not. *)
Theorem computeNextSchedule_invariants
    (now : Z) (previousSchedule : option PreviousSchedule)
    (context : ReviewContext) :
  let next := computeNextSchedule now previousSchedule context in
  1 <= upd_lastResult next <= 5 /\
  (1.3 <= upd_easeFactor next <= 2.6)%Q /\
  1 <= upd_intervalDays next /\
  now + DAY_MS <= upd_nextReviewAt next /\
  (0 <= from_option prev_repetitions 0 previousSchedule ->
   0 <= upd_repetitions next) /\
  (0 <= from_option prev_correctStreak 0 previousSchedule ->
   0 <= upd_correctStreak next).
Proof.
  cbv zeta. unfold computeNextSchedule.
  cbn [upd_lastResult upd_easeFactor upd_intervalDays upd_nextReviewAt
         upd_repetitions upd_correctStreak].
  repeat apply conj.
  - apply mapQuality_range.
  - apply mapQuality_range.
  - apply updateEaseFactor_clamped.
  - apply updateEaseFactor_clamped.
  - apply applyContextualAdjustments_ge_1.
  - match goal with
    | |- _ <= _ + ?i * _ =>
        assert (Hi : 1 <= i) by apply applyContextualAdjustments_ge_1;
        unfold DAY_MS; nia
    end.
  - intros H. destruct (_ <? 3); lia.
  - intros H. destruct (isCorrect context); lia.
Qed.

(** X5: a first correct answer (no previous schedule) is scheduled between 3
    and 8 days ahead, with one repetition and a streak of one: the base
    interval is the 6 days of a first repetition, never the 1 day of
    repetition zero, and no streak bonus applies yet. *)
Theorem computeNextSchedule_first_correct (now : Z) (context : ReviewContext) :
  isCorrect context = true ->
  let next := computeNextSchedule now None context in
  upd_repetitions next = 1 /\
  upd_correctStreak next = 1 /\
  upd_intervalDays next
    = JS.Math_round (6 * getRoomMultiplier (room context)
                       * getDifficultyMultiplier (difficulty context)) /\
  3 <= upd_intervalDays next <= 8.
Proof.
  destruct context as [c conf r d]. cbn [isCorrect]. intros ->. cbv zeta.
  destruct conf, r, d; repeat apply conj; vm_compute; first [ reflexivity | discriminate ].
Qed.

Lemma computeNextSchedule_first_correct_witness :
  3 <= upd_intervalDays (computeNextSchedule 0 None scenarioA_ctx) <= 8.
Proof.
  apply (computeNextSchedule_first_correct 0 scenarioA_ctx). reflexivity.
Defined.

Lemma streak_bonus_ge (adjusted : Z) :
  0 <= adjusted -> adjusted <= JS.Math_round (inject_Z adjusted * 1.1).
Proof.
  intros H. unfold JS.Math_round.
  rewrite <- (Qfloor_Z adjusted) at 1. apply Qfloor_resp_le.
  rewrite Zle_Qle in H. change (inject_Z 0) with 0%Q in H. lra.
Qed.

(** X6: [applyContextualAdjustments] is monotone in the base interval and in
    the streak: a longer base interval or a longer streak never gives a
    shorter interval, so the streak bonus never shortens one. *)
Theorem applyContextualAdjustments_monotone
    (base1 base2 : Z) (context : ReviewContext) (streak1 streak2 : Z) :
  base1 <= base2 -> streak1 <= streak2 ->
  applyContextualAdjustments base1 context streak1
    <= applyContextualAdjustments base2 context streak2.
Proof.
  intros Hb Hs. unfold applyContextualAdjustments. cbv zeta.
  set (m1 := getRoomMultiplier (room context)).
  set (m2 := getDifficultyMultiplier (difficulty context)).
  assert (Hm1 : (0 <= m1)%Q) by (subst m1; destruct (room context); cbn; lra).
  assert (Hm2 : (0 <= m2)%Q) by (subst m2; destruct (difficulty context); cbn; lra).
  assert (Hadj : Z.max 1 (JS.Math_round (inject_Z base1 * m1 * m2))
                 <= Z.max 1 (JS.Math_round (inject_Z base2 * m1 * m2))).
  { apply Z.max_le_compat_l, Math_round_mono.
    rewrite Zle_Qle in Hb.
    rewrite <- !Qmult_assoc. apply Qmult_le_compat_r; [ exact Hb | ].
    apply Qmult_le_0_compat; assumption. }
  set (a1 := Z.max 1 (JS.Math_round (inject_Z base1 * m1 * m2))) in *.
  set (a2 := Z.max 1 (JS.Math_round (inject_Z base2 * m1 * m2))) in *.
  assert (Ha2 : 0 <= a2) by (subst a2; lia).
  clearbody a1 a2 m1 m2.
  destruct (isCorrect context && (4 <=? mapQuality (isCorrect context) (confidence context)));
    cbn [andb]; [ | exact Hadj ].
  destruct (Z.leb_spec 3 streak1), (Z.leb_spec 3 streak2); try lia.
  - apply Math_round_mono. rewrite Zle_Qle in Hadj. lra.
  - pose proof (streak_bonus_ge a2 Ha2). lia.
Qed.

Lemma applyContextualAdjustments_monotone_witness :
  applyContextualAdjustments 21 scenarioB_ctx 2
    <= applyContextualAdjustments 21 scenarioB_ctx 5.
Proof.
  apply (applyContextualAdjustments_monotone 21 21 scenarioB_ctx 2 5); lia.
Defined.

(** X7: [getDaysUntilReview] is the least number of whole days that reaches
    the due time: the due time is at most that many days ahead and more
    than one day less; it never decreases as the due time moves later. *)
Theorem getDaysUntilReview_bounds (now due1 due2 : Z) :
  let d := getDaysUntilReview now due1 in
  ((d - 1) * DAY_MS < due1 - now <= d * DAY_MS) /\
  (due1 <= due2 -> d <= getDaysUntilReview now due2).
Proof.
  cbv zeta. rewrite !getDaysUntilReview_div. change DAY_MS with 86400000.
  split; [ | intros H ]; Z.to_euclidean_division_equations; lia.
Qed.

(** X8: the urgency levels on the timestamps.  A schedule is [overdue] once
    it is a full day late, [due_today] from less than a day late up to its
    due time, [due_soon] from then up to two days ahead and [scheduled]
    beyond; a schedule one millisecond late is still [due_today]. *)
Theorem getUrgencyLevel_thresholds (now nextReviewAt : Z) :
  let level := getUrgencyLevel now nextReviewAt in
  (level = overdue <-> nextReviewAt <= now - DAY_MS) /\
  (level = due_today <-> now - DAY_MS < nextReviewAt <= now) /\
  (level = due_soon <-> now < nextReviewAt <= now + 2 * DAY_MS) /\
  (level = scheduled <-> now + 2 * DAY_MS < nextReviewAt).
Proof.
  cbv zeta.
  destruct (getUrgencyLevel_by_time now nextReviewAt) as (H1 & H2 & H3 & H4).
  rewrite H1, H2, H3, H4. repeat split; intros; lia.
Qed.

(** X9: [isOverdue] against the urgency level.  With the default threshold
    0 it holds exactly when the due time is in the past, which covers every
    [overdue] schedule and the [due_today] ones not due at this very
    instant; with a threshold of one day it implies [overdue]. *)
Theorem isOverdue_and_urgency (now nextReviewAt : Z) :
  let level := getUrgencyLevel now nextReviewAt in
  (isOverdue now nextReviewAt 0 = true <-> nextReviewAt < now) /\
  (isOverdue now nextReviewAt 0 = true <->
   level = overdue \/ (level = due_today /\ nextReviewAt <> now)) /\
  (isOverdue now nextReviewAt 1 = true -> level = overdue).
Proof.
  cbv zeta.
  destruct (getUrgencyLevel_by_time now nextReviewAt) as (H1 & H2 & _ & _).
  rewrite H1, H2. unfold isOverdue. cbv zeta. rewrite !Z.ltb_lt.
  unfold DAY_MS. repeat split; intros; lia.
Qed.

(** ** Further properties of the store *)

Section StoreLookup.

Variable clock : nat -> Z.
Variable random : nat -> string.

#[local] Abbreviation upsert' := (upsertQuestionSchedule clock random).

Lemma select_subject_id_not_empty (topicId : string) (topics : list TopicRow) :
  SQL.select_subject_id topicId topics <> Some "".
Proof.
  unfold SQL.select_subject_id.
  destruct (find _ _) as [ t | ]; [ | discriminate ].
  destruct (t_subject_id t) as [ sid | ]; [ | discriminate ].
  case_bool_decide; congruence.
Qed.

(** X10: for a question that has no schedule, [upsertQuestionSchedule]
    returns a schedule, and [getScheduleByQuestionId] then returns one with
    the same id, item, topic, scheduling numbers, timestamps and tags.  The
    two differ in [subjectId] only, which the call returns undefined while
    the store holds the subject of the topic, never the empty string.  For a
    question that has a schedule the call throws, and
    [getScheduleByQuestionId] returns afterwards what it returned before. *)
Theorem upsert_then_getScheduleByQuestionId
    (question : Question) (context : ReviewContext) (w : World) :
  let outcome := result (upsert' question context) w in
  let w' := run (upsert' question context) w in
  let before :=
    SQL.select_schedule (question_id question) (review_schedules (db w)) in
  (before = None ->
   exists returned found,
     outcome = Returns returned /\
     result (getScheduleByQuestionId (question_id question)) w' = Some found /\
     ReviewSchedule.id found = ReviewSchedule.id returned /\
     ReviewSchedule.itemType found = ReviewSchedule.itemType returned /\
     ReviewSchedule.itemId found = ReviewSchedule.itemId returned /\
     ReviewSchedule.topicId found = ReviewSchedule.topicId returned /\
     ReviewSchedule.repetitions found = ReviewSchedule.repetitions returned /\
     ReviewSchedule.intervalDays found = ReviewSchedule.intervalDays returned /\
     ReviewSchedule.easeFactor found = ReviewSchedule.easeFactor returned /\
     ReviewSchedule.correctStreak found = ReviewSchedule.correctStreak returned /\
     ReviewSchedule.lastReview found = ReviewSchedule.lastReview returned /\
     ReviewSchedule.nextReviewAt found = ReviewSchedule.nextReviewAt returned /\
     ReviewSchedule.lastResult found = ReviewSchedule.lastResult returned /\
     ReviewSchedule.lastConfidence found = ReviewSchedule.lastConfidence returned /\
     ReviewSchedule.lastRoom found = ReviewSchedule.lastRoom returned /\
     ReviewSchedule.createdAt found = ReviewSchedule.createdAt returned /\
     ReviewSchedule.updatedAt found = ReviewSchedule.updatedAt returned /\
     ReviewSchedule.subjectId returned = None /\
     ReviewSchedule.subjectId found
       = SQL.select_subject_id (question_topicId question) (study_topics (db w)) /\
     ReviewSchedule.subjectId found <> Some "") /\
  (before <> None ->
   outcome = Throws WrongApiUse /\
   result (getScheduleByQuestionId (question_id question)) w'
     = result (getScheduleByQuestionId (question_id question)) w).
Proof.
  cbv zeta. split.
  - intros Hsel.
    destruct (upsert_new clock random question context w Hsel) as (-> & ->).
    eexists. eexists. split; [ reflexivity | ].
    unfold getScheduleByQuestionId, result, bind, get_db, ret.
    cbn [fst db review_schedules].
    unfold SQL.select_schedule, SQL.insert_schedule in *.
    erewrite find_snoc_none;
      [ | exact Hsel
        | cbn [SQL.new_row rs.item_type rs.item_id];
          now rewrite !bool_decide_eq_true_2 ].
    cbn [option_map]. split; [ reflexivity | ].
    cbn -[computeNextSchedule String.app pretty].
    repeat apply conj; try reflexivity.
    apply select_subject_id_not_empty.
  - destruct (SQL.select_schedule (question_id question)
                (review_schedules (db w))) as [ e | ] eqn:Hsel; [ | congruence ].
    intros _.
    destruct (upsert_existing clock random question context w e Hsel) as (-> & ->).
    split; reflexivity.
Qed.

Lemma select_schedule_none (itemId : string) (rows : list rs.row) :
  SQL.select_schedule itemId rows = None <->
  forall r, In r rows -> rs.item_type r = item_question -> rs.item_id r <> itemId.
Proof.
  unfold SQL.select_schedule. split.
  - intros Hnone r Hin Ht Hi.
    pose proof (find_none _ _ Hnone r Hin) as Hr. cbn in Hr.
    rewrite !bool_decide_eq_true_2 in Hr by assumption. discriminate.
  - intros Hall. destruct (find _ rows) as [ r | ] eqn:Hfind; [ | reflexivity ].
    apply find_some in Hfind as [Hin Hr].
    apply andb_prop in Hr as [Ht Hi]. apply bool_decide_eq_true_1 in Ht, Hi.
    now destruct (Hall r Hin Ht).
Qed.

(** X11: [upsertQuestionSchedule] writes exactly when the question has no
    schedule.  Then it returns, and one row is appended after the unchanged
    rows, with a fresh id made of the third clock read and the random
    suffix, and with creation, update and last-review times all equal to the
    second clock read.  Otherwise it throws after two clock reads, the table
    is left as it was and no id is drawn.  The topics table is never
    changed. *)
Theorem upsert_inserts_iff_absent
    (question : Question) (context : ReviewContext) (w : World) :
  let rows := review_schedules (db w) in
  let outcome := result (upsert' question context) w in
  let w' := run (upsert' question context) w in
  let rows' := review_schedules (db w') in
  study_topics (db w') = study_topics (db w) /\
  (SQL.select_schedule (question_id question) rows = None ->
   exists r returned,
     outcome = Returns returned /\
     rows' = rows ++ [r] /\
     rs.id r = "schedule_" +:+ pretty (clock (S (S (ticks w))))
                 +:+ "_" +:+ random (draws w) /\
     ReviewSchedule.id returned = rs.id r /\
     rs.item_type r = item_question /\
     rs.item_id r = question_id question /\
     rs.topic_id r = Some (question_topicId question) /\
     rs.created_at r = clock (S (ticks w)) /\
     rs.updated_at r = clock (S (ticks w)) /\
     rs.last_review r = Some (clock (S (ticks w))) /\
     ticks w' = S (S (S (ticks w))) /\ draws w' = S (draws w)) /\
  (SQL.select_schedule (question_id question) rows <> None ->
   outcome = Throws WrongApiUse /\
   rows' = rows /\
   ticks w' = S (S (ticks w)) /\ draws w' = draws w).
Proof.
  cbv zeta.
  destruct (SQL.select_schedule (question_id question)
              (review_schedules (db w))) as [ e | ] eqn:Hsel.
  - destruct (upsert_existing clock random question context w e Hsel) as (-> & ->).
    cbn [db ticks draws]. split; [ reflexivity | ].
    split; [ discriminate | ]. intros _. repeat split.
  - destruct (upsert_new clock random question context w Hsel) as (-> & ->).
    cbn [db ticks draws study_topics review_schedules].
    split; [ reflexivity | ]. split; [ | congruence ]. intros _.
    eexists. eexists. split; [ reflexivity | ].
    split; [ reflexivity | ].
    cbn -[computeNextSchedule String.app pretty]. repeat split.
Qed.

(** X12: [upsertQuestionSchedule] keeps the store at one schedule per
    question: if no two question rows share an [item_id] before the call,
    none do after it. *)
Theorem upsert_keeps_one_schedule_per_question
    (question : Question) (context : ReviewContext) (w : World) :
  one_schedule_per_question (review_schedules (db w)) ->
  one_schedule_per_question
    (review_schedules (db (run (upsert' question context) w))).
Proof.
  unfold one_schedule_per_question. intros Huniq.
  destruct (SQL.select_schedule (question_id question)
              (review_schedules (db w))) as [ e | ] eqn:Hsel.
  - destruct (upsert_existing clock random question context w e Hsel) as (_ & ->).
    exact Huniq.
  - destruct (upsert_new clock random question context w Hsel) as (_ & ->).
    cbn [db review_schedules].
    unfold SQL.insert_schedule, question_rows.
    rewrite List.filter_app, map_app. cbn.
    apply NoDup_app. split; [ exact Huniq | ]. split; [ | apply NoDup_singleton ].
    intros x Hx Hx'. apply list_elem_of_singleton in Hx'. subst x.
    apply list_elem_of_In, in_map_iff in Hx as (r & Hi & Hr).
    apply filter_In in Hr as [Hin Ht]. apply bool_decide_eq_true_1 in Ht.
    rewrite select_schedule_none in Hsel. now destruct (Hsel r Hin Ht).
Qed.

Lemma NoDup_map_inj {A B} (f : A -> B) (l : list A) (x y : A) :
  NoDup (map f l) -> In x l -> In y l -> f x = f y -> x = y.
Proof.
  induction l as [ | a l IH ]; cbn; [ tauto | ].
  intros Hnd%NoDup_cons [ -> | Hx ] [ -> | Hy ] Hf; try reflexivity.
  - destruct Hnd as [Hnotin _]. exfalso. apply Hnotin.
    rewrite Hf. apply list_elem_of_In, in_map, Hy.
  - destruct Hnd as [Hnotin _]. exfalso. apply Hnotin.
    rewrite <- Hf. apply list_elem_of_In, in_map, Hx.
  - destruct Hnd as [_ Hnd]. now apply IH.
Qed.

Lemma find_snoc_false {A} (p : A -> bool) (l : list A) (x : A) :
  p x = false -> find p (l ++ [x]) = find p l.
Proof.
  intros Hx. induction l as [ | y l IH ]; cbn.
  - now rewrite Hx.
  - destruct (p y); [ reflexivity | exact IH ].
Qed.

(** X13: recording an attempt on one question leaves every other question's
    schedule as it was: the lookup of another question finds the same row
    before and after the call, whether the call wrote a row or threw. *)
Theorem upsert_other_question_unchanged
    (question : Question) (context : ReviewContext) (w : World)
    (other : string) :
  other <> question_id question ->
  SQL.select_schedule other
    (review_schedules (db (run (upsert' question context) w)))
  = SQL.select_schedule other (review_schedules (db w)).
Proof.
  intros Hother.
  destruct (SQL.select_schedule (question_id question)
              (review_schedules (db w))) as [ e | ] eqn:Hsel.
  - destruct (upsert_existing clock random question context w e Hsel) as (_ & ->).
    reflexivity.
  - destruct (upsert_new clock random question context w Hsel) as (_ & ->).
    cbn [db review_schedules].
    unfold SQL.select_schedule, SQL.insert_schedule.
    apply find_snoc_false. cbn [SQL.new_row rs.item_type rs.item_id].
    rewrite (bool_decide_eq_false_2 (question_id question = other)) by congruence.
    apply andb_false_r.
Qed.

(** X14: [getScheduleByQuestionId] returns nothing exactly when no question
    row has the item id; what it returns is a question row with that item
    id, read column by column; and it leaves the world as it is.  A schedule
    of a topic with that item id is never returned. *)
Theorem getScheduleByQuestionId_lookup (questionId : string) (w : World) :
  let found := result (getScheduleByQuestionId questionId) w in
  run (getScheduleByQuestionId questionId) w = w /\
  (found = None <->
   forall r, In r (review_schedules (db w)) ->
     rs.item_type r = item_question -> rs.item_id r <> questionId) /\
  (forall s, found = Some s ->
     ReviewSchedule.itemType s = item_question /\
     ReviewSchedule.itemId s = questionId /\
     exists r, In r (review_schedules (db w)) /\ s = schedule_of_row r).
Proof.
  cbv zeta. unfold getScheduleByQuestionId, result, run, bind, get_db, ret.
  cbn [fst snd]. split; [ reflexivity | ]. split.
  - rewrite <- select_schedule_none.
    destruct (SQL.select_schedule questionId (review_schedules (db w)));
      cbn; split; congruence.
  - intros s Hs.
    destruct (SQL.select_schedule questionId (review_schedules (db w)))
      as [ r | ] eqn:Hsel; [ | discriminate ].
    injection Hs as <-. apply find_some in Hsel as [Hin Hp].
    apply andb_prop in Hp as [Ht Hi]. apply bool_decide_eq_true_1 in Ht, Hi.
    cbn. repeat split; try assumption. now exists r.
Qed.

End StoreLookup.

Lemma upsert_keeps_one_schedule_per_question_witness :
  one_schedule_per_question
    (review_schedules
       (db (run (upsertQuestionSchedule frozen_clock sample_random
                   new_question scenarioA_ctx) two_questions_world))).
Proof.
  apply (upsert_keeps_one_schedule_per_question frozen_clock sample_random
           new_question scenarioA_ctx two_questions_world).
  apply (bool_decide_unpack _). vm_compute. exact I.
Defined.

Lemma upsert_other_question_unchanged_witness :
  SQL.select_schedule "q2"
    (review_schedules
       (db (run (upsertQuestionSchedule frozen_clock sample_random
                   new_question scenarioA_ctx) two_questions_world)))
  = SQL.select_schedule "q2" (review_schedules (db two_questions_world)).
Proof.
  apply (upsert_other_question_unchanged frozen_clock sample_random
           new_question scenarioA_ctx two_questions_world "q2").
  discriminate.
Defined.

(** ** Further properties of [getReviewStats] *)

Section GroupBy.

Context {K : Type} `{EqDecision K}.
Variable key : rs.row -> K.

Lemma add_to_group_members (r r' : rs.row) (groups : list (K * list rs.row)) :
  In r' (flat_map snd (SQL.add_to_group (key r) r groups))
  <-> r' = r \/ In r' (flat_map snd groups).
Proof.
  induction groups as [ | [k g] groups IH ]; cbn.
  - intuition congruence.
  - case_bool_decide; cbn; rewrite ?in_app_iff; cbn.
    + intuition congruence.
    + rewrite IH. tauto.
Qed.

Lemma add_to_group_well_keyed (r : rs.row) (groups : list (K * list rs.row)) :
  well_keyed key groups -> well_keyed key (SQL.add_to_group (key r) r groups).
Proof.
  induction groups as [ | [k g] groups IH ]; intros Hwk k' g' Hin; cbn in Hin.
  - destruct Hin as [ [= <- <-] | [] ]. split; [ discriminate | ].
    intros r' [ <- | [] ]. reflexivity.
  - case_bool_decide as Hk.
    + destruct Hin as [ [= <- <-] | Hin ].
      * destruct (Hwk k g (or_introl eq_refl)) as [_ Hg].
        split; [ now destruct g | ].
        intros r' [ Hr' | [ <- | [] ] ]%in_app_iff; [ now apply Hg | congruence ].
      * apply Hwk. now right.
    + destruct Hin as [ [= <- <-] | Hin ].
      * apply Hwk. now left.
      * apply IH; [ | exact Hin ]. intros k0 g0 H0. apply Hwk. now right.
Qed.

Lemma group_by_spec (rows : list rs.row) :
  well_keyed key (SQL.group_by key rows) /\
  forall r, In r (flat_map snd (SQL.group_by key rows)) <-> In r rows.
Proof.
  unfold SQL.group_by.
  enough (Hgen : forall groups,
             well_keyed key groups ->
             well_keyed key (foldl (fun gs r => SQL.add_to_group (key r) r gs) groups rows) /\
             forall r,
               In r (flat_map snd
                       (foldl (fun gs r => SQL.add_to_group (key r) r gs) groups rows))
               <-> In r (flat_map snd groups) \/ In r rows).
  { destruct (Hgen []) as [Hwk Hmem]; [ intros k g [] | ].
    split; [ exact Hwk | ]. intros r. rewrite Hmem. cbn. tauto. }
  induction rows as [ | x rows IH ]; intros groups Hwk; cbn [foldl].
  - split; [ exact Hwk | ]. cbn. tauto.
  - destruct (IH (SQL.add_to_group (key x) x groups)) as [Hwk' Hmem'].
    { now apply add_to_group_well_keyed. }
    split; [ exact Hwk' | ]. intros r. rewrite Hmem', add_to_group_members.
    cbn. intuition congruence.
Qed.

End GroupBy.

Lemma MAX_correct_streak_spec (g : list rs.row) :
  g <> [] ->
  (forall r, In r g -> rs.correct_streak r <= SQL.MAX_correct_streak g) /\
  (exists r, In r g /\ rs.correct_streak r = SQL.MAX_correct_streak g).
Proof.
  destruct g as [ | r0 g ]; [ congruence | intros _ ]. unfold SQL.MAX_correct_streak.
  enough (Hgen : forall m (P : rs.row -> Prop),
             (exists r, P r /\ rs.correct_streak r = m) ->
             m <= foldl (fun m x => Z.max m (rs.correct_streak x)) m g /\
             (forall r, In r g ->
                rs.correct_streak r
                  <= foldl (fun m x => Z.max m (rs.correct_streak x)) m g) /\
             (exists r, (P r \/ In r g) /\
                rs.correct_streak r
                  = foldl (fun m x => Z.max m (rs.correct_streak x)) m g)).
  { destruct (Hgen (rs.correct_streak r0) (fun r => r = r0)) as (H0 & Hle & r & Hr & Heq);
      [ now exists r0 | ].
    split.
    - intros r' [ <- | Hr' ]; [ exact H0 | now apply Hle ].
    - exists r. split; [ cbn; intuition congruence | exact Heq ]. }
  induction g as [ | x g IH ]; intros m P (r & HP & Hm); cbn [foldl].
  - split; [ lia | ]. split; [ intros r' [] | ]. exists r. tauto.
  - destruct (IH (Z.max m (rs.correct_streak x)) (fun r => P r \/ r = x))
      as (H0 & Hle & r' & Hr' & Heq).
    { destruct (Z.max_spec m (rs.correct_streak x)) as [ [_ ->] | [_ ->] ];
        [ exists x | exists r ]; tauto. }
    split; [ lia | ]. split.
    + intros r'' [ <- | Hin ]; [ lia | now apply Hle ].
    + exists r'. split; [ cbn; intuition congruence | exact Heq ].
Qed.

Lemma ISO_min_spec (a b : Z) :
  ISO.leb (ISO.min a b) a = true /\ ISO.leb (ISO.min a b) b = true /\
  (ISO.min a b = a \/ ISO.min a b = b).
Proof.
  unfold ISO.min. destruct (ISO.leb a b) eqn:Hab.
  - split; [ apply ISO_leb_refl | ]. split; [ exact Hab | now left ].
  - destruct (ISO_leb_total a b) as [ H | H ]; [ congruence | ].
    split; [ exact H | ]. split; [ apply ISO_leb_refl | now right ].
Qed.

(** [MIN(rs.next_review_at)] of a group is the [next_review_at] of one of
    its rows, the least as a string. *)
Lemma MIN_next_review_at_spec (g : list rs.row) :
  g <> [] ->
  (forall r, In r g ->
     ISO.leb (SQL.MIN_next_review_at g) (rs.next_review_at r) = true) /\
  (exists r, In r g /\ rs.next_review_at r = SQL.MIN_next_review_at g).
Proof.
  destruct g as [ | r0 g ]; [ congruence | intros _ ]. unfold SQL.MIN_next_review_at.
  enough (Hgen : forall m (P : rs.row -> Prop),
             (exists r, P r /\ rs.next_review_at r = m) ->
             ISO.leb (foldl (fun m x => ISO.min m (rs.next_review_at x)) m g) m
               = true /\
             (forall r, In r g ->
                ISO.leb (foldl (fun m x => ISO.min m (rs.next_review_at x)) m g)
                  (rs.next_review_at r) = true) /\
             (exists r, (P r \/ In r g) /\
                rs.next_review_at r
                  = foldl (fun m x => ISO.min m (rs.next_review_at x)) m g)).
  { destruct (Hgen (rs.next_review_at r0) (fun r => r = r0)) as (H0 & Hle & r & Hr & Heq);
      [ now exists r0 | ].
    split.
    - intros r' [ <- | Hr' ]; [ exact H0 | now apply Hle ].
    - exists r. split; [ cbn; intuition congruence | exact Heq ]. }
  induction g as [ | x g IH ]; intros m P (r & HP & Hm); cbn [foldl].
  - split; [ apply ISO_leb_refl | ]. split; [ intros r' [] | ]. exists r. tauto.
  - destruct (ISO_min_spec m (rs.next_review_at x)) as (Hm1 & Hm2 & Hm3).
    destruct (IH (ISO.min m (rs.next_review_at x)) (fun r => P r \/ r = x))
      as (H0 & Hle & r' & Hr' & Heq).
    { destruct Hm3 as [ -> | -> ]; [ exists r | exists x ]; tauto. }
    split; [ exact (ISO_leb_trans _ _ _ H0 Hm1) | ]. split.
    + intros r'' [ <- | Hin ]; [ exact (ISO_leb_trans _ _ _ H0 Hm2) | now apply Hle ].
    + exists r'. split; [ cbn; intuition congruence | exact Heq ].
Qed.

Section StatsFurther.

Variable clock : nat -> Z.

Lemma getReviewStats_result (subjectIds : option (list string)) (w : World) :
  result (getReviewStats clock subjectIds) w
  = stats_of_rows
      (SQL.stats_query (clock (ticks w)) subjectIds (review_schedules (db w))).
Proof. reflexivity. Qed.

Lemma stats_of_rows_loop (rows : list SQL.stats_row) :
  let l := foldl stats_step
             {| stats := initial_stats; totalStreak := 0; count := 0 |} rows in
  totalDue (stats_of_rows rows) = totalDue (stats l) /\
  dueByRoom (stats_of_rows rows) = dueByRoom (stats l) /\
  dueBySubject (stats_of_rows rows) = dueBySubject (stats l) /\
  nextReviewDate (stats_of_rows rows) = nextReviewDate (stats l) /\
  longestStreak (streakData (stats_of_rows rows))
    = longestStreak (streakData (stats l)).
Proof.
  cbv zeta. unfold stats_of_rows. cbv zeta.
  destruct (0 <? count _); repeat split; reflexivity.
Qed.

(** X15: when no schedule is due (so also on an empty table),
    [getReviewStats] returns zero for every count and for both streak
    figures, an empty per-subject map and no next review date. *)
Theorem getReviewStats_nothing_due
    (subjectIds : option (list string)) (w : World) :
  SQL.due_schedules (clock (ticks w)) subjectIds (review_schedules (db w)) = [] ->
  result (getReviewStats clock subjectIds) w = initial_stats.
Proof.
  intros Hdue. rewrite getReviewStats_result. unfold SQL.stats_query.
  rewrite Hdue. reflexivity.
Qed.






(** What the loop leaves in [longestStreak] and in [nextReviewDate]. *)
Lemma stats_loop_extremes (rows : list SQL.stats_row) (l : StatsLoop) :
  let l' := foldl stats_step l rows in
  let L0 := longestStreak (streakData (stats l)) in
  let L := longestStreak (streakData (stats l')) in
  (L0 <= L /\
   (forall row, In row rows -> SQL.max_streak row <= L) /\
   (L = L0 \/ exists row, In row rows /\ SQL.max_streak row = L)) /\
  match nextReviewDate (stats l') with
  | None => nextReviewDate (stats l) = None /\ rows = []
  | Some d =>
      (nextReviewDate (stats l) = Some d \/
       exists row, In row rows /\ SQL.next_review row = d) /\
      (forall d0, nextReviewDate (stats l) = Some d0 -> d <= d0) /\
      (forall row, In row rows -> d <= SQL.next_review row)
  end.
Proof.
  cbv zeta. revert l.
  induction rows as [ | row rows IH ]; intros l; cbn [foldl].
  - split.
    + split; [ lia | ]. split; [ intros row [] | now left ].
    + destruct (nextReviewDate (stats l)) as [ d | ]; [ | split; reflexivity ].
      split; [ now left | ]. split; [ intros d0 [= <-]; lia | intros row [] ].
  - destruct (IH (stats_step l row)) as [ (Hge & Hall & Hatt) Hnext ]. split.
    + cbn [stats_step stats streakData longestStreak] in Hge, Hatt.
      destruct (Z.ltb_spec (longestStreak (streakData (stats l)))
                  (SQL.max_streak row)) as [ Hlt | Hle ].
      * split; [ lia | ]. split.
        -- intros row' [ <- | Hin ]; [ lia | now apply Hall ].
        -- right. destruct Hatt as [ -> | (row' & Hin & Heq) ].
           ++ exists row. split; [ now left | reflexivity ].
           ++ exists row'. split; [ now right | exact Heq ].
      * split; [ lia | ]. split.
        -- intros row' [ <- | Hin ]; [ lia | now apply Hall ].
        -- destruct Hatt as [ -> | (row' & Hin & Heq) ]; [ now left | right ].
           exists row'. split; [ now right | exact Heq ].
    + destruct (nextReviewDate (stats (foldl stats_step (stats_step l row) rows)))
        as [ d | ].
      * destruct Hnext as (Hatt' & Hlow & Hall').
        cbn [stats_step stats nextReviewDate] in Hatt', Hlow.
        destruct (nextReviewDate (stats l)) as [ d0 | ].
        -- destruct (Z.ltb_spec (SQL.next_review row) d0) as [ Hlt | Hle ].
           ++ specialize (Hlow _ eq_refl). split; [ | split ].
              ** right. destruct Hatt' as [ [= <-] | (row' & Hin & Heq) ];
                   [ exists row | exists row' ]; cbn; tauto.
              ** intros d1 [= <-]. lia.
              ** intros row' [ <- | Hin ]; [ exact Hlow | now apply Hall' ].
           ++ specialize (Hlow _ eq_refl). split; [ | split ].
              ** destruct Hatt' as [ [= <-] | (row' & Hin & Heq) ];
                   [ now left | right; exists row'; cbn; tauto ].
              ** intros d1 [= <-]. exact Hlow.
              ** intros row' [ <- | Hin ]; [ lia | now apply Hall' ].
        -- specialize (Hlow _ eq_refl). split; [ | split ].
           ++ right. destruct Hatt' as [ [= <-] | (row' & Hin & Heq) ];
                [ exists row | exists row' ]; cbn; tauto.
           ++ intros d1 [=].
           ++ intros row' [ <- | Hin ]; [ exact Hlow | now apply Hall' ].
      * destruct Hnext as [Hnone _].
        cbn [stats_step stats nextReviewDate] in Hnone.
        destruct (nextReviewDate (stats l)) as [ d0 | ];
          [ destruct (SQL.next_review row <? d0) | ]; discriminate.
Qed.

(** X17: [longestStreak] is the longest streak among the due schedules, or
    0 when none of them has a positive streak; [nextReviewDate] is absent
    exactly when no schedule is due, and otherwise the [next_review_at] of a
    due schedule: the earliest one, when the due schedules all lie in the
    years 0 to 9999.  The grouping does not show in either. *)
Theorem getReviewStats_extremes
    (subjectIds : option (list string)) (w : World) :
  let s := result (getReviewStats clock subjectIds) w in
  let due := SQL.due_schedules (clock (ticks w)) subjectIds
               (review_schedules (db w)) in
  let L := longestStreak (streakData s) in
  (0 <= L /\
   (forall r, In r due -> rs.correct_streak r <= L) /\
   (L = 0 \/ exists r, In r due /\ rs.correct_streak r = L)) /\
  match nextReviewDate s with
  | None => due = []
  | Some d =>
      (exists r, In r due /\ rs.next_review_at r = d) /\
      ((forall r, In r due -> ISO.four_digit_year (rs.next_review_at r)) ->
       forall r, In r due -> d <= rs.next_review_at r)
  end.
Proof.
  cbv zeta. rewrite getReviewStats_result.
  destruct (stats_of_rows_loop
              (SQL.stats_query (clock (ticks w)) subjectIds
                 (review_schedules (db w)))) as (_ & _ & _ & -> & ->).
  unfold SQL.stats_query.
  set (due := SQL.due_schedules (clock (ticks w)) subjectIds
                (review_schedules (db w))).
  set (key := fun r : rs.row => (rs.last_room r, rs.subject_id r)).
  destruct (group_by_spec key due) as [Hwk Hmem].
  set (groups := SQL.group_by key due) in *.
  set (agg := fun '(k, g) =>
                {| SQL.total_due := SQL.COUNT g;
                   SQL.last_room := fst k;
                   SQL.subject_id := snd k;
                   SQL.avg_streak := SQL.AVG_correct_streak g;
                   SQL.max_streak := SQL.MAX_correct_streak g;
                   SQL.next_review := SQL.MIN_next_review_at g |}).
  assert (Hgroup : forall r, In r due ->
            exists k g, In (k, g) groups /\ In r g /\ g <> []).
  { intros r Hr. apply Hmem, in_flat_map in Hr as ([k g] & Hkg & Hrg).
    exists k, g. split; [ exact Hkg | ]. split; [ exact Hrg | ].
    now destruct (Hwk k g Hkg). }
  assert (Hmember : forall k g r, In (k, g) groups -> In r g -> In r due).
  { intros k g r Hkg Hrg. apply Hmem, in_flat_map. exists (k, g). now split. }
  destruct (stats_loop_extremes (map agg groups)
              {| stats := initial_stats; totalStreak := 0; count := 0 |})
    as [ (Hge & Hall & Hatt) Hnext ].
  cbn [stats initial_stats streakData longestStreak nextReviewDate] in *.
  split; [ split; [ exact Hge | split ] | ].
  - intros r Hr. destruct (Hgroup r Hr) as (k & g & Hkg & Hrg & Hne).
    destruct (MAX_correct_streak_spec g Hne) as [Hmax _].
    specialize (Hall (agg (k, g)) (in_map agg _ _ Hkg)). cbn in Hall.
    specialize (Hmax r Hrg). lia.
  - destruct Hatt as [ -> | (row & Hin & Heq) ]; [ now left | right ].
    apply in_map_iff in Hin as ([k g] & <- & Hkg).
    destruct (Hwk k g Hkg) as [Hne _].
    destruct (MAX_correct_streak_spec g Hne) as [_ (r & Hrg & Hr)].
    exists r. split; [ now apply (Hmember k g) | ]. cbn in Heq. lia.
  - destruct (nextReviewDate _) as [ d | ].
    + destruct Hnext as (Hatt' & _ & Hall'). split.
      * destruct Hatt' as [ [=] | (row & Hin & Heq) ].
        apply in_map_iff in Hin as ([k g] & <- & Hkg).
        destruct (Hwk k g Hkg) as [Hne _].
        destruct (MIN_next_review_at_spec g Hne) as [_ (r & Hrg & Hr)].
        exists r. split; [ now apply (Hmember k g) | ]. cbn in Heq. lia.
      * intros Hyears r Hr.
        destruct (Hgroup r Hr) as (k & g & Hkg & Hrg & Hne).
        destruct (MIN_next_review_at_spec g Hne) as [Hmin (r' & Hr'g & Hr')].
        specialize (Hall' (agg (k, g)) (in_map agg _ _ Hkg)). cbn in Hall'.
        specialize (Hmin r Hrg). rewrite <- Hr' in Hmin, Hall'.
        rewrite ISO_leb_four_digit in Hmin;
          [ | apply Hyears; now apply (Hmember k g) | now apply Hyears ].
        apply Z.leb_le in Hmin. lia.
    + destruct Hnext as [_ Hnil]. apply map_eq_nil in Hnil.
      destruct due as [ | r due' ]; [ reflexivity | ].
      destruct (Hgroup r (or_introl eq_refl)) as (k & g & Hkg & _).
      rewrite Hnil in Hkg. destruct Hkg.
Qed.

(** X18: when a schedule is due and no due schedule has an unrecognised
    tier tag, [averageStreak] is the mean of the per-group averages of the
    query, one group for each tier tag and subject that occur together,
    each group weighing the same whatever its size.  (Unrecognised tags are
    one tag here but as many groups of the query as they are strings, hence
    the condition on the tags.) *)
Theorem getReviewStats_averageStreak_of_groups
    (subjectIds : option (list string)) (w : World) :
  let s := result (getReviewStats clock subjectIds) w in
  let due := SQL.due_schedules (clock (ticks w)) subjectIds
               (review_schedules (db w)) in
  let groups := SQL.group_by (fun r => (rs.last_room r, rs.subject_id r)) due in
  due <> [] ->
  (forall r, In r due -> rs.last_room r <> Some room_unknown) ->
  averageStreak (streakData s)
    = (foldl Qplus 0 (map (fun kg => SQL.AVG_correct_streak (snd kg)) groups)
       / inject_Z (Z.of_nat (length groups)))%Q.
Proof.
  cbv zeta. intros Hdue _.
  rewrite (getReviewStats_averageStreak clock subjectIds w).
  - unfold SQL.stats_query. rewrite map_map, length_map.
    erewrite map_ext; [ reflexivity | now intros [k g] ].
  - unfold SQL.stats_query. intros Hnil. apply map_eq_nil in Hnil.
    destruct (group_by_spec (fun r => (rs.last_room r, rs.subject_id r))
                (SQL.due_schedules (clock (ticks w)) subjectIds
                   (review_schedules (db w)))) as [_ Hmem].
    rewrite Hnil in Hmem. cbn in Hmem.
    destruct (SQL.due_schedules (clock (ticks w)) subjectIds
                (review_schedules (db w))) as [ | r due ]; [ congruence | ].
    apply (Hmem r). now left.
Qed.

Lemma group_by_single_key {K} `{EqDecision K} (key : rs.row -> K) (k : K)
    (r : rs.row) (rows : list rs.row) :
  (forall x, In x (r :: rows) -> key x = k) ->
  SQL.group_by key (r :: rows) = [(k, r :: rows)].
Proof.
  intros Hkey. unfold SQL.group_by. cbn [foldl SQL.add_to_group].
  rewrite (Hkey r (or_introl eq_refl)).
  assert (Hrows : forall x, In x rows -> key x = k)
    by (intros x Hx; apply Hkey; now right).
  clear Hkey.
  enough (Hgen : forall g,
             foldl (fun gs x => SQL.add_to_group (key x) x gs) [(k, g)] rows
             = [(k, g ++ rows)]) by apply (Hgen [r]).
  induction rows as [ | x rows IH ]; intros g; cbn [foldl].
  - now rewrite app_nil_r.
  - cbn [SQL.add_to_group]. rewrite (Hrows x (or_introl eq_refl)).
    rewrite bool_decide_eq_true_2 by reflexivity.
    rewrite IH by (intros y Hy; apply Hrows; now right).
    now rewrite <- app_assoc.
Qed.

(** X19: when all the due schedules have the same tier tag, one of the
    four known tags or none, and the same subject, they form one group and
    [averageStreak] is the mean of their streaks.  (Schedules with
    unrecognised tags have the same tag here and may still differ in the
    string the query groups by.) *)
Theorem getReviewStats_averageStreak_one_group
    (subjectIds : option (list string)) (w : World)
    (tier : option Room) (subject : option string) :
  let s := result (getReviewStats clock subjectIds) w in
  let due := SQL.due_schedules (clock (ticks w)) subjectIds
               (review_schedules (db w)) in
  due <> [] ->
  tier <> Some room_unknown ->
  (forall r, In r due -> rs.last_room r = tier /\ rs.subject_id r = subject) ->
  (averageStreak (streakData s) == SQL.AVG_correct_streak due)%Q.
Proof.
  cbv zeta. intros Hne _ Hsame. rewrite getReviewStats_result.
  unfold SQL.stats_query.
  destruct (SQL.due_schedules (clock (ticks w)) subjectIds
              (review_schedules (db w))) as [ | r due ]; [ congruence | ].
  rewrite (group_by_single_key _ (tier, subject)).
  - unfold stats_of_rows.
    cbn [foldl map stats_step stats totalStreak count SQL.avg_streak].
    change (0 <? 0 + 1) with true. cbn [streakData averageStreak].
    change (inject_Z (0 + 1)) with 1%Q. field.
  - intros x Hx. destruct (Hsame x Hx) as [-> ->]. reflexivity.
Qed.

End StatsFurther.

(** ** Properties of [getDueQuestionIds] *)

Section DueSQLLemmas.

Lemma left_join_topics_fst (rows : list rs.row) (topics : list TopicRow)
    (r : rs.row) :
  (exists t, In (r, t) (DueSQL.left_join_topics rows topics)) <-> In r rows.
Proof.
  unfold DueSQL.left_join_topics. split.
  - intros (t & Hin). apply in_flat_map in Hin as (r' & Hr' & Hin).
    destruct (List.filter _ topics) as [ | t0 ts ].
    + destruct Hin as [ [= <- _] | [] ]. exact Hr'.
    + apply in_map_iff in Hin as (t' & [= <- _] & _). exact Hr'.
  - intros Hr.
    destruct (List.filter (fun t => bool_decide (rs.topic_id r = Some (t_id t)))
                topics) as [ | t0 ts ] eqn:Hf.
    + exists None. apply in_flat_map. exists r. split; [ exact Hr | ].
      rewrite Hf. now left.
    + exists (Some t0). apply in_flat_map. exists r. split; [ exact Hr | ].
      rewrite Hf. now left.
Qed.

Context {A : Type}.
Variable key : A -> string.

Lemma distinct_by_sound (seen : list string) (l : list A) (x : A) :
  In x (DueSQL.distinct_by key seen l) -> In x l /\ key x ∉ seen.
Proof.
  revert seen. induction l as [ | y l IH ]; intros seen; cbn; [ tauto | ].
  case_bool_decide as Hseen.
  - intros Hx. destruct (IH _ Hx). tauto.
  - intros [ <- | Hx ]; [ tauto | ].
    destruct (IH _ Hx) as [Hin Hnot]. split; [ tauto | ].
    intros Hs. apply Hnot. now right.
Qed.

Lemma distinct_by_complete (seen : list string) (l : list A) (x : A) :
  In x l -> key x ∉ seen ->
  exists y, In y (DueSQL.distinct_by key seen l) /\ key y = key x.
Proof.
  revert seen. induction l as [ | y l IH ]; intros seen; cbn; [ tauto | ].
  intros [ -> | Hx ] Hnot.
  - rewrite bool_decide_eq_false_2 by exact Hnot. exists x. cbn. tauto.
  - case_bool_decide as Hseen; [ now apply IH | ].
    destruct (decide (key x = key y)) as [ Heq | Hne ].
    + exists y. cbn. split; [ now left | congruence ].
    + destruct (IH (key y :: seen) Hx) as (z & Hz & Hkz).
      { intros [ | ]%elem_of_cons; congruence. }
      exists z. cbn. tauto.
Qed.

Lemma distinct_by_NoDup (seen : list string) (l : list A) :
  NoDup (map key (DueSQL.distinct_by key seen l)).
Proof.
  revert seen. induction l as [ | y l IH ]; intros seen; cbn; [ constructor | ].
  case_bool_decide as Hseen; [ apply IH | ].
  cbn. constructor; [ | apply IH ].
  intros Hin. apply list_elem_of_In, in_map_iff in Hin as (z & Hkz & Hz).
  apply distinct_by_sound in Hz as [_ Hnot]. apply Hnot. rewrite Hkz. now left.
Qed.

Lemma distinct_by_NoDup_id (l : list A) :
  NoDup (map key l) -> DueSQL.distinct_by key [] l = l.
Proof.
  enough (Hgen : forall seen,
             NoDup (map key l) -> (forall x, In x l -> key x ∉ seen) ->
             DueSQL.distinct_by key seen l = l).
  { intros Hnd. apply Hgen; [ exact Hnd | ]. intros x _ Hx. inversion Hx. }
  induction l as [ | y l IH ]; intros seen Hnd Hseen; cbn; [ reflexivity | ].
  cbn in Hnd. apply NoDup_cons in Hnd as [Hy Hnd].
  rewrite bool_decide_eq_false_2 by (apply Hseen; now left).
  f_equal. apply IH; [ exact Hnd | ].
  intros x Hx [ Heq | Hs ]%elem_of_cons.
  - apply Hy. rewrite <- Heq. apply list_elem_of_In, in_map, Hx.
  - apply (Hseen x); [ now right | exact Hs ].
Qed.

Lemma LIMIT_unbounded (limit : option Z) (l : list A) :
  (forall n, limit = Some n -> n <= 0) -> DueSQL.LIMIT limit l = l.
Proof.
  intros Hlim. unfold DueSQL.LIMIT. destruct limit as [ n | ]; [ | reflexivity ].
  specialize (Hlim n eq_refl).
  destruct (Z.eqb_spec n 0); [ reflexivity | ].
  destruct (Z.ltb_spec n 0); [ reflexivity | lia ].
Qed.

Lemma LIMIT_take (limit : option Z) (l : list A) :
  exists n, DueSQL.LIMIT limit l = take n l /\
            (forall m, limit = Some m -> 0 < m -> n = Z.to_nat m).
Proof.
  unfold DueSQL.LIMIT. destruct limit as [ m | ].
  - destruct (Z.eqb_spec m 0);
      [ exists (length l); split; [ now rewrite firstn_all | intros ? [= <-]; lia ] | ].
    destruct (Z.ltb_spec m 0);
      [ exists (length l); split; [ now rewrite firstn_all | intros ? [= <-]; lia ] | ].
    exists (Z.to_nat m). split; [ reflexivity | now intros ? [= <-] ].
  - exists (length l). split; [ now rewrite firstn_all | discriminate ].
Qed.

End DueSQLLemmas.

Section OrderBy.

#[local] Abbreviation joined := (rs.row * option TopicRow)%type.

Lemma insert_ordered_In (x y : joined) (l : list joined) :
  In y (DueSQL.insert_ordered x l) <-> y = x \/ In y l.
Proof.
  induction l as [ | z l IH ]; cbn; [ intuition congruence | ].
  destruct (ISO.leb _ _); cbn; [ intuition congruence | ].
  rewrite IH. intuition congruence.
Qed.

Lemma ORDER_BY_In (y : joined) (l : list joined) :
  In y (DueSQL.ORDER_BY_next_review_at l) <-> In y l.
Proof.
  unfold DueSQL.ORDER_BY_next_review_at.
  induction l as [ | x l IH ]; cbn; [ tauto | ].
  rewrite insert_ordered_In, IH. intuition congruence.
Qed.

Lemma insert_ordered_Permutation (x : joined) (l : list joined) :
  Permutation (DueSQL.insert_ordered x l) (x :: l).
Proof.
  induction l as [ | z l IH ]; cbn; [ reflexivity | ].
  destruct (ISO.leb _ _); [ reflexivity | ].
  rewrite IH. apply perm_swap.
Qed.

Lemma ORDER_BY_Permutation (l : list joined) :
  Permutation (DueSQL.ORDER_BY_next_review_at l) l.
Proof.
  unfold DueSQL.ORDER_BY_next_review_at.
  induction l as [ | x l IH ]; cbn; [ reflexivity | ].
  now rewrite insert_ordered_Permutation, IH.
Qed.

Lemma insert_ordered_sorted (x : joined) (l : list joined) :
  StronglySorted DueSQL.earlier l ->
  StronglySorted DueSQL.earlier (DueSQL.insert_ordered x l).
Proof.
  induction 1 as [ | z l Hs IH Hall ]; cbn.
  - repeat constructor.
  - destruct (ISO.leb _ _) eqn:Hxz.
    + constructor; [ now constructor | ].
      constructor; [ exact Hxz | ].
      eapply List.Forall_impl; [ | exact Hall ].
      intros a Ha. unfold DueSQL.earlier in *.
      exact (ISO_leb_trans _ _ _ Hxz Ha).
    + constructor; [ exact IH | ].
      apply List.Forall_forall. intros a Ha.
      apply insert_ordered_In in Ha as [ -> | Ha ].
      * unfold DueSQL.earlier.
        destruct (ISO_leb_total (rs.next_review_at (fst x))
                    (rs.next_review_at (fst z))); [ congruence | assumption ].
      * rewrite List.Forall_forall in Hall. now apply Hall.
Qed.

Lemma ORDER_BY_sorted (l : list joined) :
  StronglySorted DueSQL.earlier (DueSQL.ORDER_BY_next_review_at l).
Proof.
  unfold DueSQL.ORDER_BY_next_review_at.
  induction l as [ | x l IH ]; cbn; [ constructor | ].
  now apply insert_ordered_sorted.
Qed.

(** Two joined rows stand for the same schedule row. *)
#[local] Abbreviation same_row := (fun a b : joined => fst a = fst b).

Lemma insert_ordered_same_row (x x' : joined) (l l' : list joined) :
  same_row x x' -> Forall2 same_row l l' ->
  Forall2 same_row (DueSQL.insert_ordered x l) (DueSQL.insert_ordered x' l').
Proof.
  intros Hx. induction 1 as [ | z z' l l' Hz Hl IH ]; cbn.
  - repeat constructor. exact Hx.
  - cbn in Hx, Hz. rewrite Hx, Hz.
    destruct (ISO.leb _ _); repeat constructor; assumption.
Qed.

Lemma ORDER_BY_same_row (l l' : list joined) :
  Forall2 same_row l l' ->
  Forall2 same_row (DueSQL.ORDER_BY_next_review_at l)
    (DueSQL.ORDER_BY_next_review_at l').
Proof.
  unfold DueSQL.ORDER_BY_next_review_at.
  induction 1 as [ | x x' l l' Hx Hl IH ]; cbn; [ constructor | ].
  now apply insert_ordered_same_row.
Qed.

End OrderBy.

Section DueFurther.

Variable clock : nat -> Z.

(** The rows behind the ids: with no limit they hold each due question once,
    in ascending order of [next_review_at]; a limit keeps a prefix. *)
Lemma due_rows_spec (now : Z) (subjectIds : option (list string)) (d : DB) :
  let ks := DueSQL.due_rows now subjectIds None d in
  NoDup (map (fun jr => rs.item_id (fst jr)) ks) /\
  StronglySorted DueSQL.earlier ks /\
  (forall jr, In jr ks ->
     In (fst jr) (review_schedules d) /\ SQL.is_due now subjectIds (fst jr) = true) /\
  (forall r, In r (review_schedules d) -> SQL.is_due now subjectIds r = true ->
     exists jr, In jr ks /\ rs.item_id (fst jr) = rs.item_id r) /\
  (forall limit, exists n,
     DueSQL.due_rows now subjectIds limit d = take n ks /\
     (forall m, limit = Some m -> 0 < m -> n = Z.to_nat m)).
Proof.
  cbv zeta. unfold DueSQL.due_rows. cbn [DueSQL.LIMIT].
  set (joined := DueSQL.left_join_topics (review_schedules d) (study_topics d)).
  set (due := List.filter (fun jr => SQL.is_due now subjectIds (fst jr)) joined).
  set (key := fun jr : rs.row * option TopicRow => rs.item_id (fst jr)).
  set (kept := DueSQL.distinct_by key [] due).
  pose proof (ORDER_BY_Permutation kept) as Hperm.
  repeat apply conj.
  - change (map key ?l) with (key <$> l). rewrite Hperm.
    apply distinct_by_NoDup.
  - apply ORDER_BY_sorted.
  - intros jr Hjr. apply (proj1 (ORDER_BY_In _ _)) in Hjr.
    apply distinct_by_sound in Hjr as [Hjr _].
    apply filter_In in Hjr as [Hjr Hdue]. split; [ | exact Hdue ].
    apply (left_join_topics_fst _ (study_topics d)). exists (snd jr).
    now destruct jr.
  - intros r Hr Hdue.
    apply (left_join_topics_fst _ (study_topics d)) in Hr as (t & Hrt).
    assert (Hin : In (r, t) due) by (apply filter_In; now split).
    destruct (distinct_by_complete key [] due (r, t) Hin) as (y & Hy & Hky).
    { intros Hx. inversion Hx. }
    exists y. split; [ | exact Hky ].
    apply (proj2 (ORDER_BY_In _ _)), Hy.
  - intros limit. apply LIMIT_take.
Qed.

Lemma getDueQuestionIds_result (options : DueOptions) (w : World) :
  result (getDueQuestionIds clock options) w
  = map (fun jr => rs.item_id (fst jr))
      (DueSQL.due_rows (clock (ticks w)) (opt_subjectIds options)
         (opt_limit options) (db w)).
Proof. reflexivity. Qed.

Lemma due_ids_sound_complete (options : DueOptions) (w : World) :
  let ids := result (getDueQuestionIds clock options) w in
  let due r := SQL.is_due (clock (ticks w)) (opt_subjectIds options) r = true in
  NoDup ids /\
  (forall x, In x ids ->
     exists r, In r (review_schedules (db w)) /\ due r /\ rs.item_id r = x) /\
  ((forall n, opt_limit options = Some n -> n <= 0) ->
   forall r, In r (review_schedules (db w)) -> due r -> In (rs.item_id r) ids).
Proof.
  cbv zeta. rewrite getDueQuestionIds_result.
  destruct (due_rows_spec (clock (ticks w)) (opt_subjectIds options) (db w))
    as (Hnd & _ & Hsound & Hcomplete & Hlimit).
  destruct (Hlimit (opt_limit options)) as (n & Hn & _).
  repeat apply conj.
  - rewrite Hn. change (map ?f ?l) with (f <$> l). rewrite fmap_take.
    apply (sublist_NoDup _ _ Hnd), sublist_take.
  - intros x (jr & <- & Hjr)%in_map_iff. rewrite Hn in Hjr.
    apply list_elem_of_In, elem_of_take in Hjr as (i & Hi & _).
    apply list_elem_of_lookup_2, list_elem_of_In in Hi.
    destruct (Hsound jr Hi). exists (fst jr). tauto.
  - intros Hunbounded r Hr Hdue.
    unfold DueSQL.due_rows. rewrite LIMIT_unbounded by exact Hunbounded.
    destruct (Hcomplete r Hr Hdue) as (jr & Hjr & <-).
    now apply (in_map (fun jr => rs.item_id (fst jr))).
Qed.

(** X20: [getDueQuestionIds] returns no id twice, and only item ids of
    question schedules that pass the [WHERE] clause: the stored
    [next_review_at] is not after now, as ISO strings compare, and the
    subject is one of the subjects asked for, if any is.  With no limit, a
    limit of 0 or a negative one, it returns the item id of every such
    schedule. *)
Theorem getDueQuestionIds_sound_complete (options : DueOptions) (w : World) :
  let ids := result (getDueQuestionIds clock options) w in
  let due r := SQL.is_due (clock (ticks w)) (opt_subjectIds options) r = true in
  NoDup ids /\
  (forall x, In x ids ->
     exists r, In r (review_schedules (db w)) /\ due r /\ rs.item_id r = x) /\
  ((forall n, opt_limit options = Some n -> n <= 0) ->
   forall r, In r (review_schedules (db w)) -> due r -> In (rs.item_id r) ids).
Proof. exact (due_ids_sound_complete options w). Qed.

Lemma StronglySorted_lookup {A} (R : A -> A -> Prop) (l : list A)
    (i j : nat) (a b : A) :
  StronglySorted R l -> l !! i = Some a -> l !! j = Some b -> (i < j)%nat ->
  R a b.
Proof.
  intros Hs. revert i j. induction Hs as [ | x l Hs IH Hall ]; intros i j Hi Hj Hij.
  - discriminate.
  - destruct j as [ | j ]; [ lia | ]. cbn in Hj. destruct i as [ | i ].
    + injection Hi as <-. rewrite Forall_forall in Hall.
      apply Hall. eapply list_elem_of_lookup_2, Hj.
    + cbn in Hi. apply (IH i j); [ assumption | assumption | lia ].
Qed.

Lemma is_due_inv (now : Z) (subjectIds : option (list string)) (r : rs.row) :
  SQL.is_due now subjectIds r = true ->
  rs.item_type r = item_question /\
  ISO.leb (rs.next_review_at r) now = true.
Proof.
  unfold SQL.is_due. intros H.
  apply andb_prop in H as [H _]. apply andb_prop in H as [Ht Hn].
  apply bool_decide_eq_true_1 in Ht. tauto.
Qed.

Lemma unique_question_row (rows : list rs.row) (r r' : rs.row) :
  one_schedule_per_question rows ->
  In r rows -> In r' rows ->
  rs.item_type r = item_question -> rs.item_type r' = item_question ->
  rs.item_id r = rs.item_id r' -> r = r'.
Proof.
  unfold one_schedule_per_question, question_rows.
  intros Huniq Hr Hr' Ht Ht' Hid.
  eapply (NoDup_map_inj rs.item_id); [ exact Huniq | | | exact Hid ];
    apply filter_In; split; try assumption; now apply bool_decide_eq_true_2.
Qed.

(** With one schedule per question, the row behind an id of the result is
    the schedule the lookup of that id finds. *)
Lemma due_row_is_selected (now : Z) (subjectIds : option (list string))
    (d : DB) (jr : rs.row * option TopicRow) (r : rs.row) :
  one_schedule_per_question (review_schedules d) ->
  In jr (DueSQL.due_rows now subjectIds None d) ->
  SQL.select_schedule (rs.item_id (fst jr)) (review_schedules d) = Some r ->
  fst jr = r.
Proof.
  intros Huniq Hjr Hsel.
  destruct (due_rows_spec now subjectIds d) as (_ & _ & Hsound & _).
  apply Hsound in Hjr as [Hin Hdue]. apply is_due_inv in Hdue as [Ht _].
  apply find_some in Hsel as [Hr_in Hr].
  apply andb_prop in Hr as [Hr_t Hr_i].
  apply bool_decide_eq_true_1 in Hr_t, Hr_i.
  apply (unique_question_row _ _ _ Huniq); try assumption. congruence.
Qed.

(** X21: with one schedule per question, a positive limit [n] keeps the [n]
    most urgent due questions: the result has [n] ids, or all of them when
    fewer are due; every id in it is in the unlimited result; and the
    schedule of a due question left out is due no earlier, as ISO strings
    compare, than the schedule of any question kept. *)
Theorem getDueQuestionIds_limit
    (subjectIds : option (list string)) (includeOverdue : option bool)
    (n : Z) (w : World) :
  0 < n ->
  one_schedule_per_question (review_schedules (db w)) ->
  let limited :=
    result (getDueQuestionIds clock
              {| opt_subjectIds := subjectIds; opt_limit := Some n;
                 opt_includeOverdue := includeOverdue |}) w in
  let all :=
    result (getDueQuestionIds clock
              {| opt_subjectIds := subjectIds; opt_limit := None;
                 opt_includeOverdue := includeOverdue |}) w in
  length limited = Nat.min (Z.to_nat n) (length all) /\
  (forall x, In x limited -> In x all) /\
  (forall x y rx ry,
     In x limited -> In y all -> ~ In y limited ->
     SQL.select_schedule x (review_schedules (db w)) = Some rx ->
     SQL.select_schedule y (review_schedules (db w)) = Some ry ->
     ISO.leb (rs.next_review_at rx) (rs.next_review_at ry) = true).
Proof.
  intros Hn Huniq. cbv zeta. rewrite !getDueQuestionIds_result.
  cbn [opt_subjectIds opt_limit].
  destruct (due_rows_spec (clock (ticks w)) subjectIds (db w))
    as (_ & Hsorted & _ & _ & Hlimit).
  destruct (Hlimit (Some n)) as (k & Hk & Hkn).
  rewrite Hk, (Hkn n eq_refl Hn). clear Hk Hkn Hlimit.
  set (ks := DueSQL.due_rows (clock (ticks w)) subjectIds None (db w)) in *.
  repeat apply conj.
  - rewrite !length_map, length_take. reflexivity.
  - intros x (jr & <- & Hjr)%in_map_iff.
    apply (in_map (fun jr => rs.item_id (fst jr))).
    apply list_elem_of_In, elem_of_take in Hjr as (i & Hi & _).
    eapply list_elem_of_In, list_elem_of_lookup_2, Hi.
  - intros x y rx ry Hx Hy Hnot Hrx Hry.
    apply in_map_iff in Hx as (jx & <- & Hjx).
    apply in_map_iff in Hy as (jy & <- & Hjy).
    apply list_elem_of_In, elem_of_take in Hjx as (i & Hi & Hin).
    apply list_elem_of_In, list_elem_of_lookup_1 in Hjy as (j & Hj).
    assert (Hij : (i < j)%nat).
    { destruct (Nat.lt_ge_cases j (Z.to_nat n)) as [ Hlt | Hge ]; [ | lia ].
      exfalso. apply Hnot. apply (in_map (fun jr => rs.item_id (fst jr))).
      apply list_elem_of_In, elem_of_take. exists j. now split. }
    pose proof (StronglySorted_lookup _ _ _ _ _ _ Hsorted Hi Hj Hij) as Hle.
    unfold DueSQL.earlier in Hle.
    rewrite <- (due_row_is_selected _ _ _ jx rx Huniq)
      by (try assumption; eapply list_elem_of_In, list_elem_of_lookup_2, Hi).
    rewrite <- (due_row_is_selected _ _ _ jy ry Huniq)
      by (try assumption; eapply list_elem_of_In, list_elem_of_lookup_2, Hj).
    exact Hle.
Qed.

(** X22: with one schedule per question, [getDueQuestionIds] lists the ids
    in ascending order of the stored next review: of two ids in the result,
    the schedule of the one listed first is due no later than the schedule
    of the other as ISO strings compare, so no later in time when both lie
    in the years 0 to 9999. *)
Theorem getDueQuestionIds_ascending
    (options : DueOptions) (w : World) (i j : nat) (x y : string)
    (rx ry : rs.row) :
  let ids := result (getDueQuestionIds clock options) w in
  one_schedule_per_question (review_schedules (db w)) ->
  ids !! i = Some x -> ids !! j = Some y -> (i < j)%nat ->
  SQL.select_schedule x (review_schedules (db w)) = Some rx ->
  SQL.select_schedule y (review_schedules (db w)) = Some ry ->
  ISO.leb (rs.next_review_at rx) (rs.next_review_at ry) = true /\
  (ISO.four_digit_year (rs.next_review_at rx) ->
   ISO.four_digit_year (rs.next_review_at ry) ->
   rs.next_review_at rx <= rs.next_review_at ry).
Proof.
  cbv zeta. rewrite getDueQuestionIds_result.
  intros Huniq Hi Hj Hij Hrx Hry.
  destruct (due_rows_spec (clock (ticks w)) (opt_subjectIds options) (db w))
    as (_ & Hsorted & _ & _ & Hlimit).
  destruct (Hlimit (opt_limit options)) as (n & Hn & _). rewrite Hn in Hi, Hj.
  change (map ?f ?l) with (f <$> l) in Hi, Hj.
  apply list_lookup_fmap_Some in Hi as (ji & Hx & Hi).
  apply list_lookup_fmap_Some in Hj as (jj & Hy & Hj).
  apply lookup_take_Some in Hi as [Hi _]. apply lookup_take_Some in Hj as [Hj _].
  pose proof (StronglySorted_lookup _ _ _ _ _ _ Hsorted Hi Hj Hij) as Hle.
  unfold DueSQL.earlier in Hle. subst x y.
  rewrite (due_row_is_selected _ _ _ ji rx Huniq) in Hle
    by (try assumption; eapply list_elem_of_In, list_elem_of_lookup_2, Hi).
  rewrite (due_row_is_selected _ _ _ jj ry Huniq) in Hle
    by (try assumption; eapply list_elem_of_In, list_elem_of_lookup_2, Hj).
  split; [ exact Hle | ]. intros Hyx Hyy.
  rewrite ISO_leb_four_digit in Hle by assumption. now apply Z.leb_le.
Qed.

(** X23: when now and the stored next reviews lie in the years 0 to 9999,
    every id [getDueQuestionIds] returns belongs to a question schedule that
    [getUrgencyLevel] classes, at the same instant, as [overdue] or
    [due_today]; with no subject filter and no effective limit, the id of
    every such schedule is returned.  A [due_soon] or [scheduled] schedule
    never makes its question due. *)
Theorem getDueQuestionIds_urgency (options : DueOptions) (w : World) :
  let ids := result (getDueQuestionIds clock options) w in
  let urgent r :=
    rs.item_type r = item_question /\
    (getUrgencyLevel (clock (ticks w)) (rs.next_review_at r) = overdue \/
     getUrgencyLevel (clock (ticks w)) (rs.next_review_at r) = due_today) in
  ISO.four_digit_year (clock (ticks w)) ->
  (forall r, In r (review_schedules (db w)) ->
     ISO.four_digit_year (rs.next_review_at r)) ->
  (forall x, In x ids ->
     exists r, In r (review_schedules (db w)) /\ rs.item_id r = x /\ urgent r) /\
  (opt_subjectIds options = None ->
   (forall n, opt_limit options = Some n -> n <= 0) ->
   forall r, In r (review_schedules (db w)) -> urgent r -> In (rs.item_id r) ids).
Proof.
  cbv zeta. intros Hnow Hyears.
  assert (Hlevel : forall r,
            rs.next_review_at r <= clock (ticks w) <->
            getUrgencyLevel (clock (ticks w)) (rs.next_review_at r) = overdue \/
            getUrgencyLevel (clock (ticks w)) (rs.next_review_at r) = due_today).
  { intros r.
    destruct (getUrgencyLevel_by_time (clock (ticks w)) (rs.next_review_at r))
      as (-> & -> & _). unfold DAY_MS. lia. }
  destruct (due_ids_sound_complete options w) as (_ & Hsound & Hcomplete).
  split.
  - intros x Hx. destruct (Hsound x Hx) as (r & Hr & Hdue & Hid).
    apply is_due_inv in Hdue as [Ht Hn]. exists r.
    split; [ exact Hr | ]. split; [ exact Hid | ]. split; [ exact Ht | ].
    rewrite ISO_leb_four_digit in Hn by auto.
    now apply Hlevel, Z.leb_le.
  - intros Hnone Hlim r Hr [Ht Hl]. apply Hcomplete; [ exact Hlim | exact Hr | ].
    rewrite Hnone. unfold SQL.is_due.
    rewrite bool_decide_eq_true_2 by exact Ht.
    rewrite ISO_leb_four_digit by auto.
    apply Hlevel, Z.leb_le in Hl. now rewrite Hl.
Qed.

End DueFurther.

(** Schedules with the same next review are listed in table order. *)
Example getDueQuestionIds_ties :
  result (getDueQuestionIds frozen_clock no_options) streaks_world
  = ["q1"; "q2"; "q3"].
Proof. reflexivity. Qed.

(** A subject filter keeps the schedules of each subject it names, the
    first one included. *)
Example getDueQuestionIds_subjects :
  result (getDueQuestionIds frozen_clock
            {| opt_subjectIds := Some ["s1"]; opt_limit := None;
               opt_includeOverdue := None |}) subjects_world = ["q1"] /\
  result (getDueQuestionIds frozen_clock
            {| opt_subjectIds := Some ["s2"; "s1"]; opt_limit := None;
               opt_includeOverdue := None |}) subjects_world = ["q1"; "q2"] /\
  totalDue (result (getReviewStats frozen_clock (Some ["s1"])) subjects_world) = 1 /\
  totalDue (result (getReviewStats frozen_clock (Some [])) subjects_world) = 3.
Proof. repeat apply conj; reflexivity. Qed.

(** A schedule whose next review falls in the year 10000 is stored as
    ["+010000-01-01T00:00:00.000Z"], which sorts before the string of any
    instant of the years 0 to 9999: the query returns its question as due
    while [getUrgencyLevel] classes the schedule as [scheduled]. *)
Example year_10000_is_due :
  result (getDueQuestionIds frozen_clock no_options) year_10000_world = ["q1"] /\
  getUrgencyLevel (frozen_clock 0) ISO.YEAR_10000 = scheduled.
Proof. split; reflexivity. Qed.

Section AttemptThenDue.

Variable clock : nat -> Z.
Variable random : nat -> string.

(** A first attempt is scheduled at most 8 days ahead. *)
Lemma first_interval_bounds (now : Z) (context : ReviewContext) :
  1 <= upd_intervalDays (computeNextSchedule now None context) <= 8.
Proof.
  destruct context as [c conf r d].
  destruct c, conf, r, d; vm_compute; split; discriminate.
Qed.

(** X24: a question whose first attempt was just recorded is not due again
    within a day.  When the question had no schedule, after
    [upsertQuestionSchedule] no call of [getDueQuestionIds] that reads the
    clock less than a day after [computeNextSchedule] did returns the
    question, whatever the answer was.  The instants involved are taken in
    the years 0 to 9999: the query reads the clock in these years, and
    [computeNextSchedule] read it more than 8 days before the year 10000. *)
Theorem upsert_then_not_due
    (question : Question) (context : ReviewContext) (options : DueOptions)
    (w : World) :
  let w' := run (upsertQuestionSchedule clock random question context) w in
  SQL.select_schedule (question_id question) (review_schedules (db w)) = None ->
  ISO.four_digit_year (clock (ticks w')) ->
  clock (ticks w) + 8 * DAY_MS < ISO.YEAR_10000 ->
  clock (ticks w') < clock (ticks w) + DAY_MS ->
  ~ In (question_id question) (result (getDueQuestionIds clock options) w').
Proof.
  cbv zeta. intros Hnone Hyear Hcap Hsoon Hin.
  destruct (due_ids_sound_complete clock options
              (run (upsertQuestionSchedule clock random question context) w))
    as (_ & Hsound & _).
  destruct (Hsound _ Hin) as (r & Hr & Hdue & Hid). clear Hsound Hin.
  apply is_due_inv in Hdue as [Ht Hnext].
  set (now' := clock (ticks (run (upsertQuestionSchedule clock random
                                    question context) w))) in *.
  clearbody now'.
  destruct (upsert_new clock random question context w Hnone) as (_ & Hrun).
  rewrite Hrun in Hr. cbn [db review_schedules] in Hr. clear Hrun.
  unfold SQL.insert_schedule in Hr.
  apply in_app_iff in Hr as [ Hr | [ <- | [] ] ].
  - rewrite select_schedule_none in Hnone. now destruct (Hnone r Hr Ht).
  - cbn [SQL.new_row rs.next_review_at ReviewSchedule.nextReviewAt] in Hnext.
    unfold computeNextSchedule in Hnext. cbn [upd_nextReviewAt] in Hnext.
    pose proof (first_interval_bounds (clock (ticks w)) context) as Hi.
    unfold computeNextSchedule in Hi. cbn [upd_intervalDays] in Hi.
    match type of Hi with
    | _ <= ?i <= _ => set (interval := i) in *; clearbody interval
    end.
    unfold ISO.four_digit_year in Hyear.
    rewrite ISO_leb_four_digit in Hnext.
    + apply Z.leb_le in Hnext. unfold DAY_MS in *. lia.
    + unfold ISO.four_digit_year, DAY_MS in *. lia.
    + exact Hyear.
Qed.

End AttemptThenDue.

(** *** The join with [study_topics] has no effect on the result *)

Section JoinIrrelevant.

#[local] Abbreviation joined := (rs.row * option TopicRow)%type.

(** Two joined rows stand for the same schedule row. *)
#[local] Abbreviation same_row := (fun a b : joined => fst a = fst b).

Lemma filter_copies (p : rs.row -> bool) (r : rs.row)
    (ts : list (option TopicRow)) :
  List.filter (fun jr : joined => p (fst jr)) (map (fun t' => (r, t')) ts)
  = if p r then map (fun t' => (r, t')) ts else [].
Proof.
  induction ts as [ | t ts IH ]; cbn; [ now destruct (p r) | ].
  rewrite IH. now destruct (p r).
Qed.

Lemma distinct_by_skip_copies (r : rs.row) (ts : list (option TopicRow))
    (seen : list string) (X : list joined) :
  rs.item_id r ∈ seen ->
  DueSQL.distinct_by (fun jr : joined => rs.item_id (fst jr)) seen
    (map (fun t' => (r, t')) ts ++ X)
  = DueSQL.distinct_by (fun jr : joined => rs.item_id (fst jr)) seen X.
Proof.
  intros Hs. induction ts as [ | t ts IH ]; cbn; [ reflexivity | ].
  now rewrite bool_decide_eq_true_2.
Qed.

(** After [WHERE] and [DISTINCT], the schedule rows of the joined rows are
    those of the schedule table alone. *)
Lemma distinct_due_rows (now : Z) (subjectIds : option (list string))
    (rows : list rs.row) (topics : list TopicRow) (seen : list string) :
  map fst
    (DueSQL.distinct_by (fun jr : joined => rs.item_id (fst jr)) seen
       (List.filter (fun jr : joined => SQL.is_due now subjectIds (fst jr))
          (DueSQL.left_join_topics rows topics)))
  = DueSQL.distinct_by rs.item_id seen
      (List.filter (SQL.is_due now subjectIds) rows).
Proof.
  unfold DueSQL.left_join_topics. revert seen.
  induction rows as [ | r rows IH ]; intros seen; cbn [flat_map List.filter];
    [ reflexivity | ].
  set (copies := match List.filter _ topics with
                 | [] => [(r, None)]
                 | t :: ts => map (fun t' => (r, Some t')) (t :: ts)
                 end).
  assert (Hcopies : exists ts, ts <> [] /\ copies = map (fun t' => (r, t')) ts).
  { subst copies. destruct (List.filter _ topics) as [ | t ts ].
    - now exists [None].
    - exists (map Some (t :: ts)). split; [ discriminate | ].
      now rewrite map_map. }
  clearbody copies. destruct Hcopies as (ts & Hts & ->).
  rewrite List.filter_app, (filter_copies (SQL.is_due now subjectIds)).
  destruct (SQL.is_due now subjectIds r) eqn:Hdue; [ | apply IH ].
  destruct ts as [ | t ts ]; [ congruence | ].
  cbn [map app DueSQL.distinct_by fst].
  case_bool_decide as Hseen.
  - rewrite distinct_by_skip_copies by exact Hseen. apply IH.
  - cbn [map fst]. f_equal.
    rewrite distinct_by_skip_copies by (now left). apply IH.
Qed.

Lemma same_row_of_map_fst (l l' : list joined) :
  map fst l = map fst l' -> Forall2 same_row l l'.
Proof.
  revert l'. induction l as [ | x l IH ]; intros [ | x' l' ]; cbn;
    try discriminate; [ constructor | ].
  intros [= Hx Hl]. constructor; [ exact Hx | now apply IH ].
Qed.

Lemma map_fst_of_same_row (l l' : list joined) :
  Forall2 same_row l l' -> map fst l = map fst l'.
Proof. induction 1 as [ | x x' l l' Hx _ IH ]; cbn; congruence. Qed.

(** X25: the result of [getDueQuestionIds] does not depend on the
    [study_topics] table: the join adds no question to it, removes none and
    changes neither the order nor the effect of the limit. *)
Theorem getDueQuestionIds_ignores_topics
    (clock : nat -> Z) (options : DueOptions) (w : World)
    (topics : list TopicRow) :
  result (getDueQuestionIds clock options)
    {| db := {| review_schedules := review_schedules (db w);
                study_topics := topics |};
       ticks := ticks w; draws := draws w |}
  = result (getDueQuestionIds clock options) w.
Proof.
  unfold result, getDueQuestionIds, bind, get_db, Date_now, ret.
  cbn [fst snd db ticks]. unfold DueSQL.due_rows. cbn [review_schedules study_topics].
  set (now := clock (ticks w)).
  set (K := DueSQL.distinct_by _ [] (List.filter _
               (DueSQL.left_join_topics (review_schedules (db w)) topics))).
  set (K' := DueSQL.distinct_by _ [] (List.filter _
                (DueSQL.left_join_topics (review_schedules (db w))
                   (study_topics (db w))))).
  assert (HK : Forall2 same_row K K').
  { apply same_row_of_map_fst. subst K K'. now rewrite !distinct_due_rows. }
  apply ORDER_BY_same_row in HK.
  assert (Hlimit : Forall2 same_row
                     (DueSQL.LIMIT (opt_limit options)
                        (DueSQL.ORDER_BY_next_review_at K))
                     (DueSQL.LIMIT (opt_limit options)
                        (DueSQL.ORDER_BY_next_review_at K'))).
  { unfold DueSQL.LIMIT. destruct (opt_limit options) as [ n | ]; [ | exact HK ].
    destruct (n =? 0); [ exact HK | ]. destruct (n <? 0); [ exact HK | ].
    now apply Forall2_take. }
  rewrite <- !(map_map fst rs.item_id).
  f_equal. now apply map_fst_of_same_row.
Qed.

End JoinIrrelevant.

(** ** Attempts in sequence *)

Section Attempts.

Variable clock : nat -> Z.
Variable random : nat -> string.

(** X26: [upsertQuestionSchedule] keeps the scheduling columns in range: if
    every row has non-negative repetitions and streak, an interval of at
    least a day and an ease factor in [1.3, 2.6], so has every row after the
    call. *)
Theorem upsert_keeps_in_range
    (question : Question) (context : ReviewContext) (w : World) :
  Forall in_range (review_schedules (db w)) ->
  Forall in_range
    (review_schedules
       (db (run (upsertQuestionSchedule clock random question context) w))).
Proof.
  intros Hall.
  destruct (SQL.select_schedule (question_id question)
              (review_schedules (db w))) as [ e | ] eqn:Hsel.
  - destruct (upsert_existing clock random question context w e Hsel) as (_ & ->).
    exact Hall.
  - destruct (upsert_new clock random question context w Hsel) as (_ & ->).
    cbn [db review_schedules].
    unfold SQL.insert_schedule. apply Forall_app. split; [ exact Hall | ].
    constructor; [ | constructor ].
    unfold in_range.
    cbn [SQL.new_row rs.repetitions rs.correct_streak rs.interval_days
           rs.ease_factor ReviewSchedule.repetitions ReviewSchedule.correctStreak
           ReviewSchedule.intervalDays ReviewSchedule.easeFactor].
    unfold computeNextSchedule.
    cbn [upd_repetitions upd_correctStreak upd_intervalDays upd_easeFactor
           from_option].
    repeat apply conj.
    + destruct (_ <? 3); lia.
    + destruct (isCorrect context); lia.
    + apply applyContextualAdjustments_ge_1.
    + apply updateEaseFactor_clamped.
    + apply updateEaseFactor_clamped.
Qed.

(** Attempts on a question that has a schedule leave the tables as they
    are. *)
Lemma after_attempts_existing (question : Question)
    (contexts : list ReviewContext) (w : World) (existing : rs.row) :
  SQL.select_schedule (question_id question) (review_schedules (db w))
    = Some existing ->
  db (after_attempts clock random question contexts w) = db w.
Proof.
  unfold after_attempts. revert w.
  induction contexts as [ | context contexts IH ]; intros w Hsel; cbn [foldl];
    [ reflexivity | ].
  destruct (upsert_existing clock random question context w existing Hsel)
    as (_ & Hrun).
  rewrite IH; rewrite Hrun; [ reflexivity | exact Hsel ].
Qed.

(** X27: only the first attempt on a question is recorded.  After a call of
    [upsertQuestionSchedule] for a question, any further calls for it,
    whatever their contexts, leave the store as that call left it, and the
    next call throws.  For a question that had no schedule, the stored
    schedule keeps the repetitions and streak of the first attempt: 1 and 1
    if that answer was correct, 0 and 0 if not. *)
Theorem only_first_attempt_recorded
    (question : Question) (first : ReviewContext)
    (later : list ReviewContext) (w : World) :
  let w1 := run (upsertQuestionSchedule clock random question first) w in
  let w' := after_attempts clock random question later w1 in
  db w' = db w1 /\
  (forall context,
     result (upsertQuestionSchedule clock random question context) w'
       = Throws WrongApiUse) /\
  (SQL.select_schedule (question_id question) (review_schedules (db w)) = None ->
   exists r,
     SQL.select_schedule (question_id question) (review_schedules (db w'))
       = Some r /\
     rs.repetitions r = (if isCorrect first then 1 else 0) /\
     rs.correct_streak r = (if isCorrect first then 1 else 0)).
Proof.
  cbv zeta.
  destruct (upsert_then_select clock random question first w) as (r1 & Hr1).
  pose proof (after_attempts_existing question later _ r1 Hr1) as Hdb.
  split; [ exact Hdb | ]. split.
  - intros context.
    apply (upsert_existing clock random question context _ r1).
    rewrite Hdb. exact Hr1.
  - intros Hnone. rewrite Hdb. exists r1. split; [ exact Hr1 | ].
    destruct (upsert_new clock random question first w Hnone) as (_ & Hrun).
    rewrite Hrun in Hr1. cbn [db review_schedules] in Hr1.
    unfold SQL.select_schedule, SQL.insert_schedule in Hr1, Hnone.
    erewrite find_snoc_none in Hr1;
      [ | exact Hnone
        | cbn [SQL.new_row rs.item_type rs.item_id];
          now rewrite !bool_decide_eq_true_2 ].
    injection Hr1 as <-.
    cbn [SQL.new_row rs.repetitions rs.correct_streak
           ReviewSchedule.repetitions ReviewSchedule.correctStreak].
    unfold computeNextSchedule.
    cbn [upd_repetitions upd_correctStreak from_option].
    destruct first as [c conf r d]. cbn [isCorrect confidence].
    destruct c, conf; split; reflexivity.
Qed.

End Attempts.

(** Three more correct attempts after a first one leave the 1 repetition,
    the streak of 1 and the 5 days of the first. *)
Example four_attempts_count_once :
  map counted_columns
    (review_schedules
       (db (after_attempts frozen_clock sample_random sample_question
              [scenarioA_ctx; scenarioA_ctx; scenarioA_ctx]
              (run (upsertQuestionSchedule frozen_clock sample_random
                      sample_question scenarioA_ctx) empty_world))))
  = [(1, 1, 5)].
Proof. reflexivity. Qed.

(** ** Instances of the properties that have a precondition *)

Lemma getReviewStats_nothing_due_witness :
  result (getReviewStats frozen_clock None) empty_world = initial_stats.
Proof.
  apply (getReviewStats_nothing_due frozen_clock None empty_world). reflexivity.
Defined.

Lemma getReviewStats_averageStreak_of_groups_witness :
  averageStreak (streakData (result (getReviewStats frozen_clock None) streaks_world))
  = (foldl Qplus 0
       (map (fun kg => SQL.AVG_correct_streak (snd kg))
          (SQL.group_by (fun r => (rs.last_room r, rs.subject_id r))
             (SQL.due_schedules (frozen_clock 0) None
                (review_schedules (db streaks_world)))))
     / inject_Z (Z.of_nat
                   (length
                      (SQL.group_by (fun r => (rs.last_room r, rs.subject_id r))
                         (SQL.due_schedules (frozen_clock 0) None
                            (review_schedules (db streaks_world)))))))%Q.
Proof.
  apply (getReviewStats_averageStreak_of_groups frozen_clock None streaks_world).
  - vm_compute. discriminate.
  - intros r [ <- | [ <- | [ <- | [] ] ] ]; discriminate.
Defined.

Lemma getReviewStats_averageStreak_one_group_witness :
  (averageStreak (streakData (result (getReviewStats frozen_clock None) stored_world))
   == SQL.AVG_correct_streak
        (SQL.due_schedules (frozen_clock 0) None
           (review_schedules (db stored_world))))%Q.
Proof.
  apply (getReviewStats_averageStreak_one_group frozen_clock None stored_world
           (Some amarela) None).
  - vm_compute. discriminate.
  - discriminate.
  - intros r [ <- | [] ]. split; reflexivity.
Defined.

Lemma getDueQuestionIds_limit_witness :
  length (result (getDueQuestionIds frozen_clock
                    {| opt_subjectIds := None; opt_limit := Some 1;
                       opt_includeOverdue := None |}) two_questions_world)
  = Nat.min 1 (length (result (getDueQuestionIds frozen_clock no_options)
                         two_questions_world)).
Proof.
  apply (getDueQuestionIds_limit frozen_clock None None 1 two_questions_world).
  - lia.
  - apply (bool_decide_unpack _). vm_compute. exact I.
Defined.

Lemma getDueQuestionIds_ascending_witness :
  ISO.leb (rs.next_review_at sample_row)
    (rs.next_review_at (due_row "q2" (Some verde) 3)) = true.
Proof.
  apply (getDueQuestionIds_ascending frozen_clock no_options two_questions_world
           0 1 "q1" "q2" sample_row (due_row "q2" (Some verde) 3)).
  - apply (bool_decide_unpack _). vm_compute. exact I.
  - reflexivity.
  - reflexivity.
  - lia.
  - reflexivity.
  - reflexivity.
Defined.

Lemma getDueQuestionIds_urgency_witness :
  exists r,
    In r (review_schedules (db two_questions_world)) /\ rs.item_id r = "q2" /\
    rs.item_type r = item_question /\
    (getUrgencyLevel (frozen_clock 0) (rs.next_review_at r) = overdue \/
     getUrgencyLevel (frozen_clock 0) (rs.next_review_at r) = due_today).
Proof.
  refine (proj1 (getDueQuestionIds_urgency frozen_clock no_options
                   two_questions_world _ _) "q2" _).
  - unfold ISO.four_digit_year. vm_compute. split; [ discriminate | reflexivity ].
  - intros r [ <- | [ <- | [] ] ]; unfold ISO.four_digit_year; vm_compute;
      (split; [ discriminate | reflexivity ]).
  - vm_compute. tauto.
Defined.

Lemma upsert_then_not_due_witness :
  ~ In "q3"
      (result (getDueQuestionIds frozen_clock no_options)
         (run (upsertQuestionSchedule frozen_clock sample_random
                 new_question scenarioC_ctx) two_questions_world)).
Proof.
  apply (upsert_then_not_due frozen_clock sample_random new_question
           scenarioC_ctx no_options two_questions_world).
  - reflexivity.
  - unfold ISO.four_digit_year. vm_compute. split; [ discriminate | reflexivity ].
  - vm_compute. reflexivity.
  - vm_compute. reflexivity.
Defined.

Lemma upsert_keeps_in_range_witness :
  Forall in_range
    (review_schedules
       (db (run (upsertQuestionSchedule frozen_clock sample_random
                   new_question scenarioA_ctx) two_questions_world))).
Proof.
  apply (upsert_keeps_in_range frozen_clock sample_random new_question
           scenarioA_ctx two_questions_world).
  repeat constructor; vm_compute; discriminate.
Defined.
